(** * winpods: the desktop shell (Electron main process, preload bridge,
      React renderer) and the session engine its state file comes from.

    The development follows the repository's files:
    - [JS]       the fragment of the JavaScript runtime the sources use
                 (numbers, [Math], [String.prototype.repeat], exceptions);
    - [App]      apps/desktop-ui/src/App.tsx;
    - [Main]     the Electron main process (backend process handle, IPC
                 handlers, the state file);
    - [Preload]  apps/desktop-ui/electron/preload.cjs;
    - [Backend]  the Rust session engine, of which the repository holds no
                 source: its parts are modelled from the specification. *)

From Stdlib Require Import ZArith QArith Qround Lqa Lia Bool Ascii String.
From Stdlib Require PrimFloat FloatOps SpecFloat Uint63.
From stdpp Require Import base option list strings gmap pretty.

Local Open Scope Z_scope.
Local Open Scope string_scope.

(** ** The JavaScript runtime *)

Module JS.

(** A JavaScript number. Finite values are rationals: every binary64 value
    is one. The negative zero is not kept apart from zero: [Math.max(0, -0)]
    is 0, a repeat count of -0 is 0, and the sources divide by 10 and by
    the product of a length and a positive literal only, never by a zero
    whose sign would matter. *)
Inductive number : Type :=
| NaN
| NegInfinity
| PosInfinity
| Fin (q : Q).

(** Rounding of the exact result of an arithmetic operation to the number
    the machine returns. The sources are verified for every rounding that
    is monotone and leaves the integers up to 2^53 alone, as rounding to
    the nearest binary64 (ties to even) is and does. The rounded result of
    an operation on finite numbers is taken finite: the overflow of a
    result beyond the largest binary64 to an infinity is left out. *)
Class Rounding : Type := {
  rnd : Q -> Q;
  rnd_proper : forall p q : Q, (p == q)%Q -> (rnd p == rnd q)%Q;
  rnd_mono : forall p q : Q, (p <= q)%Q -> (rnd p <= rnd q)%Q;
  rnd_int : forall z : Z, Z.abs z <= 2 ^ 53 -> (rnd (inject_Z z) == inject_Z z)%Q
}.

(** Arithmetic without rounding error, used to run the definitions. *)
Definition exact_rounding : Rounding := {|
  rnd := fun q => q;
  rnd_proper := fun _ _ Hpq => Hpq;
  rnd_mono := fun _ _ Hpq => Hpq;
  rnd_int := fun z _ => Qeq_refl (inject_Z z)
|}.

(** Rounding to the nearest multiple of 1/1024 (a tie going up): a
    rounding that loses digits, to run the definitions with. *)
Definition to_grid (q : Q) : Q :=
  (inject_Z (Qfloor (q * 1024 + (1 # 2))) / 1024)%Q.

Program Definition grid_rounding : Rounding := {| rnd := to_grid |}.
Next Obligation.
  intros p q Hpq. unfold to_grid. now rewrite Hpq.
Qed.
Next Obligation.
  intros p q Hpq. unfold to_grid.
  apply Qmult_le_compat_r; [|discriminate].
  rewrite <- Zle_Qle. apply Qfloor_resp_le. lra.
Qed.
Next Obligation.
  intros z _. unfold to_grid.
  assert (Hfloor : Qfloor (inject_Z z * 1024 + (1 # 2)) = (z * 1024)%Z).
  { pose proof (Qfloor_le (inject_Z z * 1024 + (1 # 2))) as Hlo.
    pose proof (Qlt_floor (inject_Z z * 1024 + (1 # 2))) as Hhi.
    rewrite inject_Z_plus in Hhi. change (inject_Z 1) with 1%Q in Hhi.
    apply Z.le_antisymm; apply Z.lt_succ_r; rewrite Zlt_Qlt; unfold Z.succ;
      rewrite inject_Z_plus, ?inject_Z_mult; change (inject_Z 1) with 1%Q;
      change (inject_Z 1024) with 1024%Q; lra. }
  rewrite Hfloor, inject_Z_mult. field.
Qed.

Definition Qltb (p q : Q) : bool := negb (Qle_bool q p).

(** [a < b] of the language: false as soon as one side is NaN. *)
Definition lt (a b : number) : bool :=
  match a, b with
  | NaN, _ | _, NaN => false
  | _, NegInfinity => false
  | NegInfinity, _ => true
  | PosInfinity, _ => false
  | _, PosInfinity => true
  | Fin p, Fin q => Qltb p q
  end.

(** [a <= b] of the language. *)
Definition le (a b : number) : bool :=
  match a, b with
  | NaN, _ | _, NaN => false
  | NegInfinity, _ => true
  | _, PosInfinity => true
  | _, NegInfinity => false
  | PosInfinity, _ => false
  | Fin p, Fin q => Qle_bool p q
  end.

(** [Math.max(a, b)] and [Math.min(a, b)]: NaN if either argument is. *)
Definition Math_max (a b : number) : number :=
  match a, b with
  | NaN, _ | _, NaN => NaN
  | PosInfinity, _ | _, PosInfinity => PosInfinity
  | NegInfinity, x | x, NegInfinity => x
  | Fin p, Fin q => if Qltb p q then Fin q else Fin p
  end.

Definition Math_min (a b : number) : number :=
  match a, b with
  | NaN, _ | _, NaN => NaN
  | NegInfinity, _ | _, NegInfinity => NegInfinity
  | PosInfinity, x | x, PosInfinity => x
  | Fin p, Fin q => if Qltb q p then Fin q else Fin p
  end.

(** [Math.round(x)]: the nearest integer, a tie going up. *)
Definition Math_round (x : number) : number :=
  match x with
  | Fin q => Fin (inject_Z (Qfloor (q + (1 # 2))))
  | _ => x
  end.

Section Arithmetic.
Context `{Rounding}.

(** [a / b] *)
Definition div (a b : number) : number :=
  match a, b with
  | NaN, _ | _, NaN => NaN
  | (PosInfinity | NegInfinity), (PosInfinity | NegInfinity) => NaN
  | PosInfinity, Fin q => if Qltb q 0 then NegInfinity else PosInfinity
  | NegInfinity, Fin q => if Qltb q 0 then PosInfinity else NegInfinity
  | Fin _, (PosInfinity | NegInfinity) => Fin 0
  | Fin p, Fin q =>
      if Qeq_bool q 0 then
        if Qeq_bool p 0 then NaN
        else if Qltb p 0 then NegInfinity else PosInfinity
      else Fin (rnd (p / q))
  end.

(** [a * b] *)
Definition mul (a b : number) : number :=
  match a, b with
  | NaN, _ | _, NaN => NaN
  | PosInfinity, PosInfinity | NegInfinity, NegInfinity => PosInfinity
  | PosInfinity, NegInfinity | NegInfinity, PosInfinity => NegInfinity
  | PosInfinity, Fin q | Fin q, PosInfinity =>
      if Qeq_bool q 0 then NaN
      else if Qltb q 0 then NegInfinity else PosInfinity
  | NegInfinity, Fin q | Fin q, NegInfinity =>
      if Qeq_bool q 0 then NaN
      else if Qltb q 0 then PosInfinity else NegInfinity
  | Fin p, Fin q => Fin (rnd (p * q))
  end.

(** [a - b] *)
Definition sub (a b : number) : number :=
  match a, b with
  | NaN, _ | _, NaN => NaN
  | PosInfinity, PosInfinity | NegInfinity, NegInfinity => NaN
  | PosInfinity, _ | _, NegInfinity => PosInfinity
  | NegInfinity, _ | _, PosInfinity => NegInfinity
  | Fin p, Fin q => Fin (rnd (p - q))
  end.

(** A decimal literal of the source that is not a binary64 value denotes
    the number it rounds to. *)
Definition literal (q : Q) : number := Fin (rnd q).

End Arithmetic.

Definition of_Z (z : Z) : number := Fin (inject_Z z).
Definition of_nat (n : nat) : number := of_Z (Z.of_nat n).

(** Exceptions: a computation returns a value or throws. *)
Inductive exn : Type :=
| RangeError
| SyntaxError
| SystemError (code : string)
| Error (message : string).

Inductive result (A : Type) : Type :=
| Ok (a : A)
| Throw (e : exn).
Arguments Ok {A} a.
Arguments Throw {A} e.

#[export] Instance result_ret : MRet result := fun A a => Ok a.
#[export] Instance result_bind : MBind result := fun A B f m =>
  match m with Ok a => f a | Throw e => Throw e end.

#[export] Instance result_fmap : FMap result := fun A B f m =>
  match m with Ok a => Ok (f a) | Throw e => Throw e end.

(** [try { body } catch (_) { handler }] *)
Definition try_catch {A} (body : result A) (handler : exn -> result A) : result A :=
  match body with Ok a => Ok a | Throw e => handler e end.

(** ToIntegerOrInfinity on a finite number: truncation towards zero. *)
Definition Qtrunc (q : Q) : Z := Z.quot (Qnum q) (Zpos (Qden q)).

Fixpoint string_rep (s : string) (n : nat) : string :=
  match n with
  | O => ""
  | S n' => s ++ string_rep s n'
  end.

(** [s.repeat(count)]: the count goes through ToIntegerOrInfinity (NaN
    counts as 0); a negative or infinite count throws a RangeError. *)
Definition String_repeat (s : string) (count : number) : result string :=
  match count with
  | NaN => Ok ""
  | NegInfinity | PosInfinity => Throw RangeError
  | Fin q =>
      let n := Qtrunc q in
      if (n <? 0)%Z then Throw RangeError else Ok (string_rep s (Z.to_nat n))
  end.

Definition newline : ascii := ascii_of_nat 10.

(** [s.split("\n")]: the pieces between line feeds, a single empty piece
    for the empty string. *)
Fixpoint String_split_lines (s : string) : list string :=
  match s with
  | EmptyString => [ "" ]
  | String c s' =>
      if Ascii.eqb c newline then "" :: String_split_lines s'
      else match String_split_lines s' with
           | piece :: pieces => String c piece :: pieces
           | [] => [ String c "" ]
           end
  end.

(** [xs.reduce(f, init)] *)
Definition Array_reduce {A B} (f : B -> A -> B) (init : B) (xs : list A) : B :=
  fold_left f xs init.

(** [String(x)] as a template literal applies it. An integer up to 2^53
    prints in decimal, digit for digit; the text of any other finite
    number (the shortest decimal that reads back as the same binary64,
    which for an integer above 2^53 ends in zeros that are not its
    digits) comes from [digits]. *)
Definition Number_toString (digits : Q -> string) (x : number) : string :=
  match x with
  | NaN => "NaN"
  | PosInfinity => "Infinity"
  | NegInfinity => "-Infinity"
  | Fin q =>
      let z := Qfloor q in
      if Qeq_bool q (inject_Z z) && (Z.abs z <=? 2 ^ 53)%Z then pretty z
      else digits q
  end.

(** A value read by [JSON.parse]. *)
#[warnings="-register-all"]
Inductive json : Type :=
| JNull
| JBool (b : bool)
| JNumber (n : number)
| JString (s : string)
| JArray (items : list json)
| JObject (members : list (string * json)).

End JS.

(** ** apps/desktop-ui/src/App.tsx *)

Module App.
Import JS.

(** [[{ level: number; charging: boolean }]] *)
Record BatteryReading : Type := {
  level : number;
  charging : bool
}.

(** A property declared [[name?: T | null]]: left out, null, or a value. *)
Inductive optional (A : Type) : Type :=
| Undefined
| Null
| Value (a : A).
Arguments Undefined {A}.
Arguments Null {A}.
Arguments Value {A} a.

(** Truthiness of an optional object. *)
Definition truthy {A} (o : optional A) : bool :=
  match o with Value _ => true | _ => false end.

(** [[BackendData["properties"]]] when it is not null. *)
Record Properties : Type := {
  model : string;
  leftBattery : BatteryReading;
  rightBattery : BatteryReading;
  caseBattery : optional BatteryReading;
  leftInEar : bool;
  rightInEar : bool
}.

(** What the battery window holds below its header: rows of a label and a
    text, or the fallback line. *)
Inductive element : Type :=
| Row (label text : string)
| Fallback (text : string).

Section Renderer.
Context `{Rounding}.
Variable digits : Q -> string.

(** [[function batteryBar(level: number): string]] *)
Definition batteryBar (level : number) : result string :=
  let clamped := Math_max (of_Z 0) (Math_min (of_Z 100) level) in
  let filled := Math_round (div clamped (of_Z 10)) in
  a ← String_repeat "#" filled;
  b ← String_repeat "." (sub (of_Z 10) filled);
  mret ("[" ++ a ++ b ++ "]").

(** The value [batteryBar] names [clamped]. *)
Definition clamp (level : number) : number :=
  Math_max (of_Z 0) (Math_min (of_Z 100) level).

(** The [useMemo] body computing [asciiFontSizePx]; [headerRef_current] is
    the header element's [offsetHeight] when the ref is set. *)
Definition asciiFontSizePx (ascii : string) (deviceSectionWidth deviceSectionHeight : number)
    (headerRef_current : option Z) : number :=
  let lines := String_split_lines ascii in
  let longestLine :=
    Array_reduce (fun max line => Math_max max (of_nat (String.length line))) (of_Z 1) lines in
  let lineCount := of_nat (List.length lines) in
  let usableWidth := Math_max (of_Z 120) (sub deviceSectionWidth (of_Z 40)) in
  let widthFitted := div usableWidth (mul longestLine (literal (62 # 100))) in
  let headerH := match headerRef_current with Some h => of_Z h | None => of_Z 35 end in
  let usableHeight :=
    Math_max (of_Z 60) (sub (sub deviceSectionHeight headerH) (of_Z 20)) in
  let heightFitted := div usableHeight (mul lineCount (literal (95 # 100))) in
  Math_max (Fin (9 # 2)) (Math_min (of_Z 12) (Math_min widthFitted heightFitted)).

(** The template literal of a battery row: the bar of the level, a space,
    the level, a percent sign, and CHG after a space when charging. *)
Definition battery_text (b : BatteryReading) : result string :=
  bar ← batteryBar (level b);
  mret (bar ++ " " ++ Number_toString digits (level b) ++ "%"
        ++ (if charging b then " CHG" else "")).

Definition battery_row (label : string) (b : BatteryReading) : result element :=
  text ← battery_text b;
  mret (Row label text).

(** The children of the BATTERY window: [[props ? (<>Left, Right,
    {props.caseBattery && Case}</>) : fallback]]. *)
Definition battery_window (props : option Properties) : result (list element) :=
  match props with
  | None => mret [ Fallback "No battery data available." ]
  | Some p =>
      leftRow ← battery_row "Left" (leftBattery p);
      rightRow ← battery_row "Right" (rightBattery p);
      caseRows ← (if truthy (caseBattery p)
              then match caseBattery p with
                   | Value b => row ← battery_row "Case" b; mret [ row ]
                   | _ => mret []
                   end
              else mret []);
      mret (leftRow :: rightRow :: caseRows)
  end.

End Renderer.

(** Vocabulary of the properties: the bar with [filled] cells out of ten,
    the number of filled cells for a clamped level [c], and whether the
    rows of the battery window hold one labelled [label]. *)
Definition bar (filled : nat) : string :=
  "[" ++ string_rep "#" filled ++ string_rep "." (10 - filled) ++ "]".

Definition cells `{Rounding} (c : Q) : Z :=
  Qfloor (rnd (c / inject_Z 10) + (1 # 2)).

Definition has_row (label : string) (rows : list element) : bool :=
  existsb (fun e => match e with
                    | Row l _ => String.eqb l label
                    | Fallback _ => false
                    end) rows.

End App.

(** ** [batteryBar] on the machine's numbers

    The same function on binary64 itself (the primitive floats), where the
    division and the subtraction round as the machine does; it is run
    beside the rational model on the levels a battery reports. *)

Module Binary64.
Import SpecFloat JS.

Definition of_Z (z : Z) : PrimFloat.float :=
  if (z <? 0)%Z
  then PrimFloat.opp (PrimFloat.of_uint63 (Uint63.of_Z (- z)))
  else PrimFloat.of_uint63 (Uint63.of_Z z).

Definition Math_max (a b : PrimFloat.float) : PrimFloat.float :=
  if PrimFloat.is_nan a || PrimFloat.is_nan b then PrimFloat.nan
  else if PrimFloat.ltb a b then b else a.

Definition Math_min (a b : PrimFloat.float) : PrimFloat.float :=
  if PrimFloat.is_nan a || PrimFloat.is_nan b then PrimFloat.nan
  else if PrimFloat.ltb b a then b else a.

(** The integer nearest to a finite number, a tie going up: with the
    number m * 2^e, the floor of m * 2^e + 1/2. *)
Definition nearest_integer (x : PrimFloat.float) : option Z :=
  match FloatOps.Prim2SF x with
  | S754_zero _ => Some 0%Z
  | S754_finite s m e =>
      let v := if s then Z.neg m else Z.pos m in
      Some (if (0 <=? e)%Z then (v * 2 ^ e)%Z
            else ((2 * v + 2 ^ (- e)) / 2 ^ (- e + 1))%Z)
  | _ => None
  end.

(** [Math.round(x)]: a number of 2^53 or more is an integer already. *)
Definition Math_round (x : PrimFloat.float) : PrimFloat.float :=
  match nearest_integer x with
  | Some z => if (Z.abs z <? 2 ^ 53)%Z then of_Z z else x
  | None => x
  end.

(** ToIntegerOrInfinity: [None] for an infinity. *)
Definition ToIntegerOrInfinity (x : PrimFloat.float) : option Z :=
  match FloatOps.Prim2SF x with
  | S754_nan | S754_zero _ => Some 0%Z
  | S754_finite s m e =>
      let v := if s then Z.neg m else Z.pos m in
      Some (if (0 <=? e)%Z then (v * 2 ^ e)%Z else Z.quot v (2 ^ (- e)))
  | S754_infinity _ => None
  end.

Definition String_repeat (s : string) (count : PrimFloat.float) : result string :=
  match ToIntegerOrInfinity count with
  | Some n =>
      if (n <? 0)%Z then Throw RangeError
      else Ok (string_rep s (Z.to_nat n))
  | None => Throw RangeError
  end.

(** [[function batteryBar(level: number): string]] *)
Definition batteryBar (level : PrimFloat.float) : result string :=
  let clamped := Math_max (of_Z 0) (Math_min (of_Z 100) level) in
  let filled := Math_round (PrimFloat.div clamped (of_Z 10)) in
  a ← String_repeat "#" filled;
  b ← String_repeat "." (PrimFloat.sub (of_Z 10) filled);
  mret ("[" ++ a ++ b ++ "]").

End Binary64.

(** ** The Electron main process *)

Module Main.
Import JS.

(** A path, by its segments. *)
Definition path : Type := list string.

(** [path.join(base, ...segments)] *)
Definition path_join (base : path) (segments : list string) : path :=
  (base ++ segments)%list.

(** The [{ command, args, cwd }] of [resolveBackendCommand]. *)
Record launch : Type := {
  command : path;
  args : list string;
  cwd : option path
}.

(** What the host does with a [spawn]: it starts the process; it cannot
    (the command is missing, or may not be run), and then [spawn] returns
    a handle all the same, which has no process and gets an ["error"]
    event later, never an ["exit"]; or [spawn] throws at once (any other
    error of the host). *)
Inductive outcome : Type :=
| Started
| Refused (code : string)
| Thrown (code : string).

(** What the main process reads of its host, and what the host does with
    a [spawn] of the main process, [n] handles having been given out. *)
Record environment : Type := {
  isDev : bool;
  forceLocalBundle : bool;
  dirname : path;
  resourcesPath : path;
  appData : path;
  launches : nat -> launch -> outcome
}.

(** An entry of the file system: a file with its text, or an entry that
    exists and cannot be read (a directory, a file held by another
    process), with the error code reading it gives. *)
Inductive file : Type :=
| Regular (content : string)
| Unreadable (code : string).

(** [fs.existsSync(p)] *)
Definition existsSync (fs : gmap path file) (p : path) : bool :=
  bool_decide (is_Some (fs !! p)).

(** [fs.readFileSync(p, "utf-8")] *)
Definition readFileSync (fs : gmap path file) (p : path) : result string :=
  match fs !! p with
  | Some (Regular content) => Ok content
  | Some (Unreadable code) => Throw (SystemError code)
  | None => Throw (SystemError "ENOENT")
  end.

Fixpoint parent (levels : nat) (p : path) : path :=
  match levels with
  | O => p
  | S n => parent n (removelast p)
  end.

Definition resolveBackendCommand (env : environment) : launch :=
  if forceLocalBundle env then
    {| command := path_join (parent 1 (dirname env)) [ ".runtime"; "backend"; "desktop.exe" ];
       args := [];
       cwd := None |}
  else if isDev env then
    {| command := [ "cargo" ];
       args := [ "run"; "-p"; "desktop"; "--bin"; "desktop" ];
       cwd := Some (parent 3 (dirname env)) |}
  else
    {| command := path_join (resourcesPath env) [ "backend"; "desktop.exe" ];
       args := [];
       cwd := None |}.

(** A child process of the host: running, or sent the termination signal
    and not yet gone. *)
Inductive process_status : Type :=
| Alive
| Signalled.

Record process : Type := {
  launched : launch;
  status : process_status
}.

(** The module variable [backendProcess] (a handle, or null), the host's
    child processes by handle, the number of handles given out, and the
    lines written to the console. *)
Record state : Type := {
  backendProcess : option nat;
  processes : gmap nat process;
  spawned : nat;
  console : list string
}.

Definition initial : state :=
  {| backendProcess := None; processes := ∅; spawned := 0; console := [] |}.

(** [spawn(command, args, options)]: a new handle, for a new process
    where the host starts one. The ["error"] event of a handle without
    process has no listener: the host reports it, and no variable of the
    main process changes. *)
Definition spawn (env : environment) (c : launch) (st : state) : result (nat * state) :=
  let handle := spawned st in
  let given (procs : gmap nat process) :=
    (handle,
     {| backendProcess := backendProcess st;
        processes := procs;
        spawned := S handle;
        console := console st |}) in
  match launches env handle c with
  | Started => Ok (given (<[handle := {| launched := c; status := Alive |}]> (processes st)))
  | Refused _ => Ok (given (processes st))
  | Thrown code => Throw (SystemError code)
  end.

(** [child.kill()]: signals the process if the host still has it. *)
Definition kill (handle : nat) (procs : gmap nat process) : result (bool * gmap nat process) :=
  match procs !! handle with
  | Some p => Ok (true, <[handle := {| launched := launched p; status := Signalled |}]> procs)
  | None => Ok (false, procs)
  end.

(** [[function startBackend()]]: where [spawn] throws, the variable is
    not assigned. *)
Definition startBackend (env : environment) (st : state) : result state :=
  match backendProcess st with
  | Some _ => Ok st
  | None =>
      given ← spawn env (resolveBackendCommand env) st;
      mret {| backendProcess := Some (fst given);
              processes := processes (snd given);
              spawned := spawned (snd given);
              console := console (snd given) |}
  end.

(** [[function stopBackend()]]: the [catch (_) {}] drops what [kill] throws. *)
Definition stopBackend (st : state) : state :=
  match backendProcess st with
  | None => st
  | Some handle =>
      let procs :=
        match try_catch (kill handle (processes st)) (fun _ => Ok (false, processes st)) with
        | Ok (_, procs') => procs'
        | Throw _ => processes st
        end in
      {| backendProcess := None;
         processes := procs;
         spawned := spawned st;
         console := console st |}
  end.

(** The ["exit"] listener [startBackend] puts on every process it spawns,
    run when the process [handle] is gone ([code] is null after a signal). *)
Definition on_exit (handle : nat) (code : option Z) (st : state) : state :=
  {| backendProcess := None;
     processes := delete handle (processes st);
     spawned := spawned st;
     console := app (console st)
       [ "[backend] exited with code " ++ match code with Some c => pretty c | None => "null" end ] |}.

(** [[function resolveStatePath()]] *)
Definition resolveStatePath (env : environment) : path :=
  path_join (appData env) [ "winpods"; "state.json" ].

(** What a handler sends back: [{ running }] or the state document. *)
Inductive reply : Type :=
| Status (running : bool)
| Document (doc : json).

Definition handler : Type :=
  environment -> gmap path file -> state -> result (reply * state).

Section Handlers.
Variable JSON_parse : string -> result json.

(** [[ipcMain.handle("backend:status", ...)]] *)
Definition backend_status : handler := fun env fs st =>
  mret (Status (bool_decide (is_Some (backendProcess st))), st).

(** [[ipcMain.handle("backend:restart", ...)]] *)
Definition backend_restart : handler := fun env fs st =>
  let st := stopBackend st in
  st ← startBackend env st;
  mret (Status (bool_decide (is_Some (backendProcess st))), st).

(** The body of the ["backend:data"] handler. *)
Definition read_state (env : environment) (fs : gmap path file) : result json :=
  let statePath := resolveStatePath env in
  if negb (existsSync fs statePath) then mret JNull
  else try_catch
         (raw ← readFileSync fs statePath;
          JSON_parse raw)
         (fun _ => mret JNull).

(** [[ipcMain.handle("backend:data", ...)]] *)
Definition backend_data : handler := fun env fs st =>
  doc ← read_state env fs;
  mret (Document doc, st).

(** The handlers [ipcMain.handle] registers, by channel. *)
Definition ipcMain_handlers : gmap string handler :=
  {[ "backend:status" := backend_status;
     "backend:restart" := backend_restart;
     "backend:data" := backend_data ]}.

(** [ipcRenderer.invoke(channel)]: runs the channel's handler in the main
    process; the promise is rejected when none is registered. *)
Definition ipcRenderer_invoke (channel : string) : handler := fun env fs st =>
  match ipcMain_handlers !! channel with
  | Some h => h env fs st
  | None => Throw (Error ("No handler registered for " ++ channel))
  end.

(** The main process after a call that was rejected: the handler of
    ["backend:restart"] has stopped the backend by the time [spawn]
    throws; no other handler changes anything before it throws. *)
Definition rejected (channel : string) (st : state) : state :=
  if String.eqb channel "backend:restart" then stopBackend st else st.

End Handlers.

(** Vocabulary of the properties: the host starts the backend when it is
    asked for the handle [n]. *)
Definition started (env : environment) (n : nat) : Prop :=
  launches env n (resolveBackendCommand env) = Started.

(** Vocabulary of the properties: the backend the handle names is a
    process of the host that runs. *)
Definition backend_runs (env : environment) (st : state) (handle : nat) : Prop :=
  backendProcess st = Some handle /\
  processes st !! handle = Some {| launched := resolveBackendCommand env; status := Alive |}.

(** A host to run the definitions on. *)
Definition sample_environment : environment :=
  {| isDev := true;
     forceLocalBundle := false;
     dirname := [ "C:"; "winpods"; "apps"; "desktop-ui"; "electron" ];
     resourcesPath := [ "C:"; "winpods"; "resources" ];
     appData := [ "C:"; "Users"; "me"; "AppData"; "Roaming" ];
     launches := fun _ _ => Started |}.

(** The same host with the backend not built: the command is missing. *)
Definition sample_host_without_backend : environment :=
  {| isDev := true;
     forceLocalBundle := false;
     dirname := [ "C:"; "winpods"; "apps"; "desktop-ui"; "electron" ];
     resourcesPath := [ "C:"; "winpods"; "resources" ];
     appData := [ "C:"; "Users"; "me"; "AppData"; "Roaming" ];
     launches := fun _ _ => Refused "ENOENT" |}.

(** The same host where [spawn] throws. *)
Definition sample_host_that_throws : environment :=
  {| isDev := true;
     forceLocalBundle := false;
     dirname := [ "C:"; "winpods"; "apps"; "desktop-ui"; "electron" ];
     resourcesPath := [ "C:"; "winpods"; "resources" ];
     appData := [ "C:"; "Users"; "me"; "AppData"; "Roaming" ];
     launches := fun _ _ => Thrown "UNKNOWN" |}.

End Main.

(** ** apps/desktop-ui/electron/preload.cjs *)

Module Preload.
Import JS.

(** The object given to [contextBridge.exposeInMainWorld]: each property
    is a function that invokes one channel. *)
Definition backend : gmap string string :=
  {[ "status" := "backend:status";
     "restart" := "backend:restart";
     "data" := "backend:data" ]}.

(** [contextBridge.exposeInMainWorld(key, api)] on the renderer's globals. *)
Definition exposeInMainWorld (key : string) (api : gmap string string)
    (world : gmap string (gmap string string)) : gmap string (gmap string string) :=
  <[key := api]> world.

(** The renderer's globals once the preload script has run. *)
Definition mainWorld : gmap string (gmap string string) :=
  exposeInMainWorld "backend" backend ∅.

(** [window[object][method]()] in the renderer. *)
Definition call (JSON_parse : string -> result json) (object method : string) : Main.handler :=
  fun env fs st =>
    match mainWorld !! object ≫= (fun api => api !! method) with
    | Some channel => Main.ipcRenderer_invoke JSON_parse channel env fs st
    | None => Throw (Error (object ++ "." ++ method ++ " is not a function"))
    end.

End Preload.

(** ** The session engine (crates/desktop), from the specification *)

Module Backend.
Import JS.

(** Modelled from the spec: the Session Manager's low-battery policy (the
    Rust session engine is not part of the sources). The flag
    [lowBatteryAlerted] of the snapshot, and the alerts emitted so far. *)
Record session : Type := {
  lowBatteryAlerted : bool;
  alerts : nat
}.

(** Modelled from the spec: the session of a device that has just been
    connected, no alert raised (the Session Manager is not part of the
    sources). *)
Definition fresh_session : session :=
  {| lowBatteryAlerted := false; alerts := 0 |}.

(** Modelled from the spec: the policy applied after each battery update
    (4.4): below the threshold with the flag down, raise it and emit one
    alert; with the flag up, emit nothing, and lower it when the lower of
    the two buds is above the threshold plus the hysteresis margin. *)
Definition battery_update (threshold margin : Z) (reading : Z * Z) (s : session) : session :=
  let lowest := Z.min (fst reading) (snd reading) in
  if lowBatteryAlerted s then
    if (threshold + margin <? lowest)%Z
    then {| lowBatteryAlerted := false; alerts := alerts s |}
    else s
  else
    if (lowest <? threshold)%Z
    then {| lowBatteryAlerted := true; alerts := S (alerts s) |}
    else s.

(** Modelled from the spec: a reconnection lowers the flag (4.4). *)
Definition reconnected (s : session) : session :=
  {| lowBatteryAlerted := false; alerts := alerts s |}.

(** Modelled from the spec: the sessions after each of a sequence of
    battery updates, in order. *)
Fixpoint feed (threshold margin : Z) (readings : list (Z * Z)) (s : session) : list session :=
  match readings with
  | [] => []
  | reading :: rest =>
      let s' := battery_update threshold margin reading s in
      s' :: feed threshold margin rest s'
  end.

(** Modelled from the spec: the State Publisher (4.5), which is not part of
    the sources. The document being published, if one is, the files of the
    host, and the documents published so far, latest first. *)
Record publisher : Type := {
  files : gmap Main.path Main.file;
  pending : option json;
  published : list json
}.

(** Modelled from the spec: the publisher's moves. It builds the whole
    serialized document in memory ([Begin]), writes it to a temporary file
    chunk by chunk ([Write]), and renames the temporary file over the state
    file ([Commit]); a failed write gives the attempt up ([Abort]). *)
Inductive action : Type :=
| Begin (doc : json)
| Write (chunk : string)
| Commit
| Abort.

Section Publisher.
Variable env : Main.environment.
Variable serialize : json -> string.

(** Modelled from the spec: the persisted state document (6) is the file
    the shell reads; the publisher itself is not part of the sources. *)
Definition statePath : Main.path := Main.resolveStatePath env.

(** Modelled from the spec: the temporary file, beside the state file. *)
Definition tempPath : Main.path :=
  Main.path_join (Main.appData env) [ "winpods"; "state.json.tmp" ].

(** Modelled from the spec: one move of the publisher, [None] when the move
    is not possible in the state. *)
Definition perform (a : action) (st : publisher) : option publisher :=
  match a, pending st with
  | Begin doc, None =>
      Some {| files := <[tempPath := Main.Regular ""]> (files st);
              pending := Some doc;
              published := published st |}
  | Write chunk, Some doc =>
      match files st !! tempPath with
      | Some (Main.Regular written) =>
          if String.prefix (written ++ chunk) (serialize doc)
          then Some {| files := <[tempPath := Main.Regular (written ++ chunk)]> (files st);
                       pending := Some doc;
                       published := published st |}
          else None
      | _ => None
      end
  | Commit, Some doc =>
      match files st !! tempPath with
      | Some (Main.Regular written) =>
          if String.eqb written (serialize doc)
          then Some {| files := <[statePath := Main.Regular written]> (delete tempPath (files st));
                       pending := None;
                       published := doc :: published st |}
          else None
      | _ => None
      end
  | Abort, Some _ =>
      Some {| files := delete tempPath (files st);
              pending := None;
              published := published st |}
  | _, _ => None
  end.

(** Modelled from the spec: a run of the publisher. *)
Fixpoint run (actions : list action) (st : publisher) : option publisher :=
  match actions with
  | [] => Some st
  | a :: rest =>
      match perform a st with
      | Some st' => run rest st'
      | None => None
      end
  end.

(** Modelled from the spec: before the first publication there is no state
    file. *)
Definition starting (fs : gmap Main.path Main.file) : publisher :=
  {| files := delete statePath fs; pending := None; published := [] |}.

(** Vocabulary of the properties: the state file is missing until the
    first publication and then holds the whole text of the latest published
    document; the documents at hand come from [docs]. *)
Definition consistent (docs : list json) (st : publisher) : Prop :=
  files st !! statePath
    = (fun doc => Main.Regular (serialize doc)) <$> head (published st) /\
  (forall doc, In doc (published st) -> In doc docs) /\
  (forall doc, pending st = Some doc -> In doc docs).

End Publisher.

(** Vocabulary of the properties: the documents a run begins to publish. *)
Fixpoint begun (actions : list action) : list json :=
  match actions with
  | [] => []
  | Begin doc :: rest => doc :: begun rest
  | _ :: rest => begun rest
  end.

(** A run that publishes null and is part of the way through writing the
    next document. *)
Definition sample_run : list action :=
  [ Begin JNull; Write "nu"; Write "ll"; Commit; Begin (JBool true); Write "tr" ].

End Backend.

(** ** A reader of the three JSON keywords, to run the handlers with *)

Module Keywords.
Import JS.

Definition parse (raw : string) : result json :=
  if String.eqb raw "null" then Ok JNull
  else if String.eqb raw "true" then Ok (JBool true)
  else if String.eqb raw "false" then Ok (JBool false)
  else Throw SyntaxError.

Definition stringify (doc : json) : string :=
  match doc with
  | JBool true => "true"
  | JBool false => "false"
  | _ => "null"
  end.

End Keywords.

(** ** More of the runtime: text *)

Module JSString.
Import JS.

(** A text is held as its bytes in UTF-8: an ASCII character is one
    byte below 128, and no byte of another character is. *)
Definition is_ascii (c : ascii) : bool := (nat_of_ascii c <? 128)%nat.

Definition is_upper (c : ascii) : bool :=
  (65 <=? nat_of_ascii c)%nat && (nat_of_ascii c <=? 90)%nat.

Definition is_lower (c : ascii) : bool :=
  (97 <=? nat_of_ascii c)%nat && (nat_of_ascii c <=? 122)%nat.

Definition lower (c : ascii) : ascii :=
  if is_upper c then ascii_of_nat (nat_of_ascii c + 32) else c.

Definition upper (c : ascii) : ascii :=
  if is_lower c then ascii_of_nat (nat_of_ascii c - 32) else c.

(** [s.toLowerCase()], as far as ASCII goes: the ASCII capitals become
    small letters and the characters outside ASCII stay as they are.
    JavaScript maps those too, to characters outside ASCII but for two:
    U+212A gives k, and U+0130 gives i with U+0307 after it. No needle of
    [mapModelToAsciiId] has a k, or an i before anything but r or t, so
    which of them occur in the result is what it is in JavaScript. *)
Fixpoint String_toLowerCase (s : string) : string :=
  match s with
  | EmptyString => EmptyString
  | String c s' => String (lower c) (String_toLowerCase s')
  end.

(** [s.toUpperCase()] of an ASCII text; [None] for any other text, whose
    capitals JavaScript takes from the Unicode tables (U+017F gives S,
    U+0131 gives I), which are not modelled. The source does not call it:
    it is vocabulary of the properties. *)
Fixpoint String_toUpperCase (s : string) : option string :=
  match s with
  | EmptyString => Some EmptyString
  | String c s' =>
      if is_ascii c then String (upper c) <$> String_toUpperCase s' else None
  end.

(** [s.includes(needle)]: [needle] starts at some position of [s]. *)
Fixpoint String_includes (s needle : string) : bool :=
  String.prefix needle s ||
  match s with
  | EmptyString => false
  | String _ s' => String_includes s' needle
  end.

(** Truthiness of a string: the empty string is falsy. *)
Definition truthy_string (s : string) : bool :=
  negb (String.eqb s "").

End JSString.

(** ** apps/desktop-ui/src/App.tsx: the choice of the device art *)

Module Art.
Import JS JSString.

(** [[type AsciiVersion]] and [[type AsciiManifest]] *)
Record AsciiVersion : Type := {
  id : string;
  label : string;
  file : string
}.

Record AsciiManifest : Type := {
  defaultVersion : string;
  versions : list AsciiVersion
}.

(** [[function mapModelToAsciiId(model?: string): string | null]]; the
    argument left out and the result null are [None]. *)
Definition mapModelToAsciiId (model : option string) : option string :=
  match model with
  | None => None
  | Some model =>
      if negb (truthy_string model) then None
      else
        let value := String_toLowerCase model in
        if String_includes value "airpodsmax" then Some "airpods-max"
        else if String_includes value "beatsfitpro" then Some "beats-fit-pro"
        else if String_includes value "airpodspro2" || String_includes value "airpodspro2usbc"
        then Some "airpods-pro-2"
        else if String_includes value "airpods3" || String_includes value "airpods4"
                || String_includes value "airpods2"
        then Some "airpods-4"
        else None
  end.

(** [versions.some((v) => v.id === mapped)] *)
Definition has_version (vs : list AsciiVersion) (mapped : string) : bool :=
  existsb (fun v => String.eqb (id v) mapped) vs.

(** The effect on [backendData?.device?.model] and [versions]: the new
    value of the state [model], given the device's model (if the document
    has one) and the state before. *)
Definition detect_model (vs : list AsciiVersion) (deviceModel : option string)
    (model : string) : string :=
  match mapModelToAsciiId deviceModel with
  | Some mapped =>
      if truthy_string mapped && has_version vs mapped then mapped else model
  | None => model
  end.

(** The effect on [model] and [versions]: the address it fetches, if it
    fetches one. *)
Definition art_request (vs : list AsciiVersion) (model : string) : option string :=
  if negb (truthy_string model) then None
  else
    match find (fun entry => String.eqb (id entry) model) vs with
    | Some version => Some ("ascii/" ++ file version)
    | None => None
    end.

(** The same effect with the fetch done: [fetch_text] is the text of the
    response at an address, or the rejection of the request; the new value
    of the state [ascii]. *)
Definition load_art (fetch_text : string -> result string) (vs : list AsciiVersion)
    (model ascii : string) : string :=
  match art_request vs model with
  | None => ascii
  | Some address =>
      match fetch_text address with
      | Ok text => text
      | Throw _ => "[ ASCII ART FILE NOT FOUND ]"
      end
  end.

(** A manifest to run the definitions on. *)
Definition sample_versions : list AsciiVersion :=
  [ {| id := "airpods-pro-2"; label := "AirPods Pro 2"; file := "airpods-pro-2.txt" |};
    {| id := "airpods-max"; label := "AirPods Max"; file := "airpods-max.txt" |} ].

End Art.

(** ** The Electron main process: the window, the tray and the events *)

Module Shell.
Import JS Main.

(** What a window shows: the development server or the built page. *)
Inductive page : Type :=
| DevServer (url : string)
| Bundle (file : path).

(** A [BrowserWindow]. *)
Record window : Type := {
  content : page;
  visible : bool;
  focused : bool;
  destroyed : bool
}.

(** The [Tray]: its image (none when the file gives no image), its tool
    tip and the labels of its menu. *)
Record tray_icon : Type := {
  image : option path;
  toolTip : string;
  menu : list string
}.

(** The module variables [backendProcess] (with the host's processes),
    [mainWindow], [tray] and [isQuitting], and whether the application has
    ended. *)
Record shell : Type := {
  backend : state;
  mainWindow : option window;
  tray : option tray_icon;
  isQuitting : bool;
  ended : bool
}.

(** The main process as the script leaves it before the application is
    ready. *)
Definition launching : shell :=
  {| backend := initial; mainWindow := None; tray := None;
     isQuitting := false; ended := false |}.

(** [[function createWindow()]]: a new window, shown, with the page
    loaded; its ["close"] listener is [on_close] below. *)
Definition createWindow (env : environment) (sh : shell) : shell :=
  {| backend := backend sh;
     mainWindow :=
       Some {| content :=
                 if isDev env && negb (forceLocalBundle env)
                 then DevServer "http://127.0.0.1:5173"
                 else Bundle (path_join (parent 1 (dirname env)) [ "dist"; "index.html" ]);
               visible := true;
               focused := true;
               destroyed := false |};
     tray := tray sh;
     isQuitting := isQuitting sh;
     ended := ended sh |}.

(** The ["close"] listener of the window: unless the application is
    quitting the close is prevented and the window hidden; when it is
    quitting the close goes on and the window is destroyed. *)
Definition on_close (sh : shell) : shell :=
  match mainWindow sh with
  | None => sh
  | Some w =>
      {| backend := backend sh;
         mainWindow :=
           Some (if isQuitting sh
                 then {| content := content w; visible := false; focused := false;
                         destroyed := true |}
                 else {| content := content w; visible := false; focused := false;
                         destroyed := destroyed w |});
         tray := tray sh;
         isQuitting := isQuitting sh;
         ended := ended sh |}
  end.

(** The handler shared by the tray's "Open WinPods" entry, the tray's
    double click and the application's ["activate"] event: a window is
    created when there is none, else shown and focused; showing a
    destroyed window throws. *)
Definition open_window (env : environment) (sh : shell) : result shell :=
  match mainWindow sh with
  | None => Ok (createWindow env sh)
  | Some w =>
      if destroyed w then Throw (Error "Object has been destroyed")
      else Ok {| backend := backend sh;
                 mainWindow := Some {| content := content w; visible := true;
                                       focused := true; destroyed := false |};
                 tray := tray sh;
                 isQuitting := isQuitting sh;
                 ended := ended sh |}
  end.

(** [[function resolveTrayIconPath()]] *)
Definition resolveTrayIconPath (env : environment) : path :=
  if isDev env
  then path_join (parent 3 (dirname env))
         [ "crates"; "desktop"; "src-tauri"; "icons"; "icon.png" ]
  else path_join (resourcesPath env) [ "icons"; "icon.png" ].

(** [[function createTray()]]: the image is empty when the icon file
    cannot be read. *)
Definition createTray (env : environment) (fs : gmap path file) (sh : shell) : shell :=
  {| backend := backend sh;
     mainWindow := mainWindow sh;
     tray := Some {| image := match fs !! resolveTrayIconPath env with
                              | Some (Regular _) => Some (resolveTrayIconPath env)
                              | _ => None
                              end;
                     toolTip := "WinPods";
                     menu := [ "Open WinPods"; "Quit" ] |};
     isQuitting := isQuitting sh;
     ended := ended sh |}.

Definition with_backend (st : state) (sh : shell) : shell :=
  {| backend := st; mainWindow := mainWindow sh; tray := tray sh;
     isQuitting := isQuitting sh; ended := ended sh |}.

(** The callback of [app.whenReady()]: where [startBackend] throws,
    neither the tray nor the window is made. *)
Definition on_ready (env : environment) (fs : gmap path file) (sh : shell) : result shell :=
  st ← startBackend env (backend sh);
  mret (createWindow env (createTray env fs (with_backend st sh))).

(** The main process after the handler of ["backend:restart"], whether it
    returned or threw. *)
Definition on_restart (env : environment) (fs : gmap path file) (sh : shell) : shell :=
  with_backend
    match backend_restart env fs (backend sh) with
    | Ok (_, st) => st
    | Throw _ => rejected "backend:restart" (backend sh)
    end sh.

(** The ["before-quit"] listener. *)
Definition on_before_quit (sh : shell) : shell :=
  {| backend := stopBackend (backend sh);
     mainWindow := mainWindow sh;
     tray := tray sh;
     isQuitting := true;
     ended := ended sh |}.

(** The tray's "Quit" entry: [isQuitting = true; app.quit()], where
    [app.quit()] emits ["before-quit"], closes the windows and ends the
    application. *)
Definition on_tray_quit (sh : shell) : shell :=
  let sh := {| backend := backend sh; mainWindow := mainWindow sh; tray := tray sh;
               isQuitting := true; ended := ended sh |} in
  let sh := on_close (on_before_quit sh) in
  {| backend := backend sh; mainWindow := mainWindow sh; tray := tray sh;
     isQuitting := isQuitting sh; ended := true |}.

(** What happens to the main process: the application gets ready, the
    window is asked for (tray entry, double click, activation), the user
    closes the window, the user quits from the tray, the renderer asks for
    a restart, a backend process is gone. *)
Inductive event : Type :=
| Ready
| Open
| Close
| Quit
| Restart
| Exited (handle : nat) (code : option Z).

(** One event, [None] when it cannot happen in the state: nothing happens
    before the application is ready or after it has ended, a window is
    closed only if there is one, a process is gone only once (and only a
    process the host started), and a handler of the main process that
    throws stops the run; after a restart that was rejected the run goes
    on. *)
Definition step (env : environment) (fs : gmap path file) (e : event) (sh : shell)
    : option shell :=
  if ended sh then None
  else
    match e, tray sh with
    | Ready, None =>
        match on_ready env fs sh with
        | Ok sh' => Some sh'
        | Throw _ => None
        end
    | Ready, Some _ => None
    | _, None => None
    | Open, Some _ =>
        match open_window env sh with
        | Ok sh' => Some sh'
        | Throw _ => None
        end
    | Close, Some _ =>
        match mainWindow sh with
        | Some w => if destroyed w then None else Some (on_close sh)
        | None => None
        end
    | Quit, Some _ => Some (on_tray_quit sh)
    | Restart, Some _ => Some (on_restart env fs sh)
    | Exited handle code, Some _ =>
        match processes (backend sh) !! handle with
        | Some _ => Some (with_backend (on_exit handle code (backend sh)) sh)
        | None => None
        end
    end.

Fixpoint run (env : environment) (fs : gmap path file) (events : list event) (sh : shell)
    : option shell :=
  match events with
  | [] => Some sh
  | e :: rest =>
      match step env fs e sh with
      | Some sh' => run env fs rest sh'
      | None => None
      end
  end.

(** Vocabulary of the properties: what [backendProcess] names when it
    names [handle]: a handle given out, whose process runs if the host
    started one, and which has no process if the host refused. *)
Definition held (env : environment) (st : state) (handle : nat) : Prop :=
  (handle < spawned st)%nat /\
  match launches env handle (resolveBackendCommand env) with
  | Started =>
      processes st !! handle
        = Some {| launched := resolveBackendCommand env; status := Alive |}
  | Refused _ => processes st !! handle = None
  | Thrown _ => False
  end.

(** Vocabulary of the properties: what every run keeps. The handles of
    the host's processes are handles given out, all were launched by
    [resolveBackendCommand], the handle [backendProcess] names is [held],
    no backend is tracked before the application is ready, and while the
    application has not ended it is not quitting and, once ready, has its
    window, not destroyed. *)
Definition sound (env : environment) (sh : shell) : Prop :=
  (forall h p, processes (backend sh) !! h = Some p ->
     (h < spawned (backend sh))%nat /\ launched p = resolveBackendCommand env) /\
  (forall h, backendProcess (backend sh) = Some h -> held env (backend sh) h) /\
  (tray sh = None -> backendProcess (backend sh) = None) /\
  (ended sh = false -> isQuitting sh = false) /\
  (ended sh = false -> tray sh <> None ->
     exists w, mainWindow sh = Some w /\ destroyed w = false).

End Shell.

(** ** apps/desktop-ui/src/App.tsx: the poll of the backend *)

Module Polling.
Import JS Main.

(** The states [backendRunning] and [backendData] of the component; the
    data is the document as the bridge returned it, null at first. *)
Record renderer : Type := {
  backendRunning : bool;
  backendData : json
}.

Definition mounting : renderer :=
  {| backendRunning := false; backendData := JNull |}.

(** [value?.[key]] on a value read from JSON: [None] is undefined. *)
Definition json_get (value : json) (key : string) : option json :=
  match value with
  | JObject members => snd <$> find (fun member => String.eqb (fst member) key) members
  | _ => None
  end.

(** [Boolean(value)] *)
Definition truthy_json (value : option json) : bool :=
  match value with
  | None | Some JNull => false
  | Some (JBool b) => b
  | Some (JNumber NaN) => false
  | Some (JNumber (Fin q)) => negb (Qeq_bool q 0)
  | Some (JNumber _) => true
  | Some (JString s) => negb (String.eqb s "")
  | Some (JArray _) | Some (JObject _) => true
  end.

(** What the renderer receives for a reply of the main process. *)
Definition reply_value (r : reply) : json :=
  match r with
  | Status running => JObject [ ("running", JBool running) ]
  | Document doc => doc
  end.

(** A call [window.backend[method]()], the main process going from [st]
    to the state of the pair, also when the call is rejected. *)
Definition invoke (JSON_parse : string -> result json) (channel : string)
    (env : environment) (fs : gmap path file) (st : state) : result json * state :=
  match ipcRenderer_invoke JSON_parse channel env fs st with
  | Ok (r, st') => (Ok (reply_value r), st')
  | Throw e => (Throw e, rejected channel st)
  end.

(** [[const poll = async () => ...]]: [window_backend] is the global
    [window.backend] (its methods by name, each with the channel it
    invokes), absent outside the shell; [mounted] is the flag of the
    effect. The promise is rejected when one of the two calls is. *)
Definition poll (JSON_parse : string -> result json)
    (window_backend : option (gmap string string)) (mounted : bool)
    (env : environment) (fs : gmap path file) (st : state) (r : renderer)
    : result renderer * state :=
  match window_backend ≫= (fun api => api !! "status") with
  | None => (Ok r, st)
  | Some status_channel =>
      let '(res, st) := invoke JSON_parse status_channel env fs st in
      let '(data, st) :=
        match window_backend ≫= (fun api => api !! "data") with
        | Some data_channel => invoke JSON_parse data_channel env fs st
        | None => (Ok JNull, st)
        end in
      (res ← res;
       data ← data;
       if negb mounted then Ok r
       else Ok {| backendRunning := truthy_json (json_get res "running");
                  backendData := data |},
       st)
  end.

End Polling.

(** ** The script that stages the backend binary *)

Module Stage.
Import JS Main.

(** An entry of the file system, directories included. *)
Inductive entry : Type :=
| File (content : string)
| Directory.

(** [fs.existsSync(p)] *)
Definition existsSync (fs : gmap path entry) (p : path) : bool :=
  bool_decide (is_Some (fs !! p)).

(** A directory of the file system; the root is always one. *)
Definition isDirectory (fs : gmap path entry) (p : path) : bool :=
  match p, fs !! p with
  | [], _ => true
  | _, Some Directory => true
  | _, _ => false
  end.

(** The walk of [fs.mkdirSync(dir, { recursive: true })] from [base]
    down the segments that remain: the directories that are missing are
    made, those that exist are entered; a file in the way throws. *)
Fixpoint mkdirSync_recursive (base : path) (segments : list string) (fs : gmap path entry)
    : result (gmap path entry) :=
  match segments with
  | [] => Ok fs
  | segment :: rest =>
      let dir := app base [ segment ] in
      match fs !! dir with
      | Some (File _) =>
          Throw (SystemError match rest with [] => "EEXIST" | _ => "ENOTDIR" end)
      | Some Directory => mkdirSync_recursive dir rest fs
      | None => mkdirSync_recursive dir rest (<[dir := Directory]> fs)
      end
  end.

(** [fs.mkdirSync(dir, { recursive: true })] *)
Definition mkdirSync (dir : path) (fs : gmap path entry) : result (gmap path entry) :=
  mkdirSync_recursive [] dir fs.

(** [fs.copyFileSync(source, target)]: the target is written over; the
    source must be a file, the target must not be a directory and the
    directory it is in must exist. *)
Definition copyFileSync (source target : path) (fs : gmap path entry)
    : result (gmap path entry) :=
  match fs !! source with
  | None => Throw (SystemError "ENOENT")
  | Some Directory => Throw (SystemError "EISDIR")
  | Some (File content) =>
      if isDirectory fs target then Throw (SystemError "EISDIR")
      else if isDirectory fs (removelast target)
           then Ok (<[target := File content]> fs)
           else Throw (SystemError "ENOENT")
  end.

Section Script.
Variable show : path -> string.
Variable appRoot : path.

(** The constants of the script; [appRoot] is [process.cwd()]. *)
Definition repoRoot : path := parent 2 appRoot.
Definition backendSource : path := path_join repoRoot [ "target"; "debug"; "desktop.exe" ].
Definition runtimeDir : path := path_join appRoot [ ".runtime"; "backend" ].
Definition backendTarget : path := path_join runtimeDir [ "desktop.exe" ].

(** The script: the file system it leaves and the lines it logs, or what
    it throws (the directories a run made before it threw are not kept);
    [show] writes a path as the host does. *)
Definition stage (fs : gmap path entry) : result (gmap path entry * list string) :=
  if negb (existsSync fs backendSource)
  then Throw (Error ("Backend binary not found at: " ++ show backendSource))
  else
    fs ← mkdirSync runtimeDir fs;
    fs ← copyFileSync backendSource backendTarget fs;
    mret (fs, [ "[stage] backend copied to " ++ show backendTarget ]).

End Script.

(** A checkout to run the script on: the binary is built, nothing is
    staged. *)
Definition sample_appRoot : path := [ "C:"; "winpods"; "apps"; "desktop-ui" ].

Definition sample_checkout : gmap path entry :=
  {[ [ "C:" ] := Directory;
     [ "C:"; "winpods" ] := Directory;
     [ "C:"; "winpods"; "apps" ] := Directory;
     [ "C:"; "winpods"; "apps"; "desktop-ui" ] := Directory;
     [ "C:"; "winpods"; "target" ] := Directory;
     [ "C:"; "winpods"; "target"; "debug" ] := Directory;
     [ "C:"; "winpods"; "target"; "debug"; "desktop.exe" ] := File "MZ" ]}.

Definition show_windows (p : path) : string := String.concat "\" p.

End Stage.

(** * Properties *)

(** ** The runtime *)

Module JSFacts.
Import JS.

Lemma Qltb_true (p q : Q) : Qltb p q = true <-> (p < q)%Q.
Proof.
  unfold Qltb. rewrite negb_true_iff. split.
  - intros Hb. apply Qnot_le_lt. intros Hle.
    apply Qle_bool_iff in Hle. congruence.
  - intros Hlt. destruct (Qle_bool q p) eqn:Hb; [|reflexivity].
    apply Qle_bool_iff in Hb. lra.
Qed.

Lemma Qltb_false (p q : Q) : Qltb p q = false <-> (q <= p)%Q.
Proof.
  unfold Qltb. rewrite negb_false_iff. apply Qle_bool_iff.
Qed.

Lemma Qeq_bool_false (p q : Q) : ~ (p == q)%Q -> Qeq_bool p q = false.
Proof.
  intros Hne. destruct (Qeq_bool p q) eqn:Hb; [|reflexivity].
  apply Qeq_bool_iff in Hb. contradiction.
Qed.

(** Case analysis on a comparison of rationals, with the order fact. *)
Ltac case_Qltb p q :=
  let Hc := fresh "Hcmp" in
  destruct (Qltb p q) eqn:Hc;
  [apply Qltb_true in Hc | apply Qltb_false in Hc].

(** Truncation reads an integer back, however the rational is written. *)
Lemma Qtrunc_int (q : Q) (z : Z) : (q == inject_Z z)%Q -> Qtrunc q = z.
Proof.
  destruct q as [n d]. unfold Qeq, Qtrunc. simpl. intros Heq.
  rewrite Z.mul_1_r in Heq. subst n.
  apply Z.quot_mul. discriminate.
Qed.

(** An integer and a half rounds down to the integer. *)
Lemma Qfloor_half (n : Z) (x : Q) : (x == inject_Z n + (1 # 2))%Q -> Qfloor x = n.
Proof.
  intros Hx.
  pose proof (Qfloor_le x) as Hlo. pose proof (Qlt_floor x) as Hhi.
  rewrite inject_Z_plus in Hhi. change (inject_Z 1) with 1%Q in Hhi.
  apply Z.le_antisymm; apply Z.lt_succ_r; rewrite Zlt_Qlt; unfold Z.succ;
    rewrite inject_Z_plus; change (inject_Z 1) with 1%Q; lra.
Qed.

Lemma length_append (s1 s2 : string) :
  String.length (s1 ++ s2) = (String.length s1 + String.length s2)%nat.
Proof.
  induction s1 as [|c s1 IH]; simpl; [reflexivity|]. now rewrite IH.
Qed.

Lemma length_string_rep (c : ascii) (n : nat) :
  String.length (string_rep (String c "") n) = n.
Proof.
  induction n as [|n IH]; [reflexivity|].
  change (S (String.length (string_rep (String c "") n)) = S n).
  now f_equal.
Qed.

(** A repeat count that is a natural number, in any notation, repeats
    that many times. *)
Lemma String_repeat_int (s : string) (q : Q) (z : Z) :
  (q == inject_Z z)%Q -> (0 <= z)%Z ->
  String_repeat s (Fin q) = Ok (string_rep s (Z.to_nat z)).
Proof.
  intros Hq Hz. unfold String_repeat.
  rewrite (Qtrunc_int q z Hq).
  destruct (z <? 0)%Z eqn:Hneg; [lia|reflexivity].
Qed.

Section Rounded.
Context `{Rounding}.

Lemma rnd_between (lo hi : Z) (q : Q) :
  (Z.abs lo <= 2 ^ 53)%Z -> (Z.abs hi <= 2 ^ 53)%Z ->
  (inject_Z lo <= q <= inject_Z hi)%Q ->
  (inject_Z lo <= rnd q <= inject_Z hi)%Q.
Proof.
  intros Hlo Hhi [Hl Hh]. split.
  - rewrite <- (rnd_int lo Hlo). now apply rnd_mono.
  - rewrite <- (rnd_int hi Hhi). now apply rnd_mono.
Qed.

Lemma rnd_Z (q : Q) (z : Z) :
  (Z.abs z <= 2 ^ 53)%Z -> (q == inject_Z z)%Q -> (rnd q == inject_Z z)%Q.
Proof.
  intros Hz Hq. rewrite (rnd_proper q (inject_Z z) Hq). now apply rnd_int.
Qed.

End Rounded.

End JSFacts.

(** ** The renderer *)

Module AppSpec.
Import JS JSFacts App.

Lemma length_bar (filled : nat) :
  (filled <= 10)%nat -> String.length (bar filled) = 12%nat.
Proof.
  intros Hle. unfold bar.
  change "[" with (String "["%char "").
  change (String.length (String "[" ("" ++ string_rep "#" filled ++ string_rep "." (10 - filled) ++ "]")))
    with (S (String.length (string_rep "#" filled ++ string_rep "." (10 - filled) ++ "]"))).
  rewrite !length_append.
  rewrite (length_string_rep "#"%char), (length_string_rep "."%char).
  simpl. lia.
Qed.

Section Bars.
Context `{Rounding}.

Lemma clamp_Fin (q : Q) :
  clamp (Fin q) =
    if Qltb q (inject_Z 100)
    then if Qltb (inject_Z 0) q then Fin q else of_Z 0
    else of_Z 100.
Proof.
  unfold clamp, of_Z, Math_min.
  destruct (Qltb q (inject_Z 100)); reflexivity.
Qed.

(** The clamped level is a finite number between 0 and 100, the level
    itself when that lies in the range. *)
Lemma clamp_range (level : number) :
  level <> NaN ->
  exists c : Q, clamp level = Fin c /\ (0 <= c <= 100)%Q /\
    (forall q, level = Fin q -> (0 <= q <= 100)%Q -> (c == q)%Q).
Proof.
  intros Hnan. destruct level as [| | |q].
  - contradiction.
  - exists (inject_Z 0). split; [reflexivity|]. split; [compute; intuition discriminate|].
    intros q Hq. discriminate.
  - exists (inject_Z 100). split; [reflexivity|]. split; [compute; intuition discriminate|].
    intros q Hq. discriminate.
  - rewrite clamp_Fin.
    case_Qltb q (inject_Z 100); [case_Qltb (inject_Z 0) q|].
    + exists q. split; [reflexivity|]. split.
      * change (inject_Z 100) with 100%Q in *. change (inject_Z 0) with 0%Q in *. lra.
      * intros q' [= <-] _. reflexivity.
    + exists (inject_Z 0). split; [reflexivity|]. split; [compute; intuition discriminate|].
      intros q' [= <-] Hr. change (inject_Z 0) with 0%Q in *. lra.
    + exists (inject_Z 100). split; [reflexivity|]. split; [compute; intuition discriminate|].
      intros q' [= <-] Hr. change (inject_Z 100) with 100%Q in *. lra.
Qed.

Lemma clamp_idempotent (level : number) : clamp (clamp level) = clamp level.
Proof.
  destruct level as [| | |q]; try reflexivity.
  rewrite clamp_Fin.
  destruct (Qltb q (inject_Z 100)) eqn:Hhi; [destruct (Qltb (inject_Z 0) q) eqn:Hlo|];
    try reflexivity.
  rewrite clamp_Fin, Hhi, Hlo. reflexivity.
Qed.

Lemma cells_range (c : Q) : (0 <= c <= 100)%Q -> (0 <= cells c <= 10)%Z.
Proof.
  intros Hc. unfold cells.
  assert (Hr : (inject_Z 0 <= rnd (c / inject_Z 10) <= inject_Z 10)%Q).
  { apply rnd_between; [simpl; lia | simpl; lia |].
    change (inject_Z 0) with 0%Q. change (inject_Z 10) with 10%Q.
    split.
    - apply Qle_shift_div_l; lra.
    - apply Qle_shift_div_r; lra. }
  change (inject_Z 0) with 0%Q in Hr. change (inject_Z 10) with 10%Q in Hr.
  change (inject_Z 10) with 10%Q.
  split.
  - apply (Qfloor_resp_le 0). lra.
  - apply (Qfloor_resp_le _ (21 # 2)). lra.
Qed.

Lemma cells_int (c : Q) (z : Z) :
  (Z.abs z <= 2 ^ 53)%Z -> (c == inject_Z (10 * z))%Q -> cells c = z.
Proof.
  intros Hz Hc. unfold cells.
  assert (Hr : (rnd (c / inject_Z 10) == inject_Z z)%Q).
  { apply rnd_Z; [exact Hz|]. rewrite Hc, inject_Z_mult. field. }
  rewrite Hr. now apply Qfloor_half.
Qed.

Lemma cells_proper (c q : Q) : (c == q)%Q -> cells c = cells q.
Proof.
  intros Hcq. unfold cells.
  assert (Hr : (rnd (c / inject_Z 10) == rnd (q / inject_Z 10))%Q).
  { apply rnd_proper. now rewrite Hcq. }
  now rewrite Hr.
Qed.

(** [batteryBar] on a level whose clamped value is [c]. *)
Lemma batteryBar_clamped (level : number) (c : Q) :
  clamp level = Fin c -> (0 <= c <= 100)%Q ->
  batteryBar level = Ok (bar (Z.to_nat (cells c))).
Proof.
  intros Hclamp Hc.
  pose proof (cells_range c Hc) as Hcells.
  unfold batteryBar. fold (clamp level). rewrite Hclamp.
  unfold div, of_Z. change (Qeq_bool (inject_Z 10) 0) with false.
  cbv beta iota. unfold Math_round. fold (cells c).
  rewrite (String_repeat_int "#" (inject_Z (cells c)) (cells c)) by (reflexivity || lia).
  unfold sub.
  rewrite (String_repeat_int "." _ (10 - cells c)); [| |lia].
  - unfold bar. rewrite Z2Nat.inj_sub by lia. reflexivity.
  - apply rnd_Z; [lia|].
    rewrite <- Z.add_opp_r, inject_Z_plus, inject_Z_opp. reflexivity.
Qed.

(** [batteryBar] sees its argument through the clamp only. *)
Lemma batteryBar_through_clamp (a b : number) :
  clamp a = clamp b -> batteryBar a = batteryBar b.
Proof.
  intros Heq. unfold batteryBar. fold (clamp a) (clamp b). now rewrite Heq.
Qed.

Lemma batteryBar_empty (level : number) :
  clamp level = of_Z 0 -> batteryBar level = Ok "[..........]".
Proof.
  intros Hclamp.
  rewrite (batteryBar_clamped level (inject_Z 0) Hclamp) by (compute; intuition discriminate).
  rewrite (cells_int (inject_Z 0) 0); [reflexivity | simpl; lia | reflexivity].
Qed.

Lemma batteryBar_full (level : number) :
  clamp level = of_Z 100 -> batteryBar level = Ok "[##########]".
Proof.
  intros Hclamp.
  rewrite (batteryBar_clamped level (inject_Z 100) Hclamp) by (compute; intuition discriminate).
  rewrite (cells_int (inject_Z 100) 10); [reflexivity | simpl; lia | reflexivity].
Qed.

End Bars.

(** C1. For every battery level from 0 to 100, [batteryBar] returns a bar
    of ten cells between brackets, twelve characters in all (the filled
    cells, a tenth of the level rounded to the nearest integer, then the
    empty ones); level 0 gives the bar with no cell filled and level 100
    the bar with every cell filled. *)
Theorem batteryBar_fixed_width `{Rounding} (q : Q) :
  (0 <= q <= 100)%Q ->
  exists filled : nat,
    (filled <= 10)%nat /\
    filled = Z.to_nat (cells q) /\
    batteryBar (Fin q) = Ok (bar filled) /\
    String.length (bar filled) = 12%nat /\
    ((q == 0)%Q -> bar filled = "[..........]") /\
    ((q == 100)%Q -> bar filled = "[##########]").
Proof.
  intros Hq.
  destruct (clamp_range (Fin q)) as (c & Hclamp & Hc & Hsame); [discriminate|].
  specialize (Hsame q eq_refl Hq).
  pose proof (cells_range c Hc) as Hcells.
  exists (Z.to_nat (cells c)).
  assert (Hle : (Z.to_nat (cells c) <= 10)%nat) by lia.
  split; [exact Hle|]. split; [now rewrite (cells_proper c q Hsame)|].
  split; [now apply batteryBar_clamped|].
  split; [now apply length_bar|]. split; intros Hend.
  - rewrite (cells_int c 0); [reflexivity | simpl; lia |].
    rewrite Hsame, Hend. reflexivity.
  - rewrite (cells_int c 10); [reflexivity | simpl; lia |].
    rewrite Hsame, Hend. reflexivity.
Qed.

Lemma batteryBar_fixed_width_witness :
  (0 <= 55 <= 100)%Q /\
  exists filled : nat,
    (filled <= 10)%nat /\
    filled = Z.to_nat (cells (H := exact_rounding) 55) /\
    batteryBar (H := exact_rounding) (Fin 55) = Ok (bar filled) /\
    String.length (bar filled) = 12%nat /\
    ((55 == 0)%Q -> bar filled = "[..........]") /\
    ((55 == 100)%Q -> bar filled = "[##########]").
Proof.
  assert (Hrange : (0 <= 55 <= 100)%Q) by (split; discriminate).
  split; [exact Hrange|].
  exact (batteryBar_fixed_width (H := exact_rounding) 55 Hrange).
Defined.

(** C2. For every number [level], whether in the range or not,
    [batteryBar level] is [batteryBar] of the clamped value
    [max(0, min(100, level))]; a negative level gives the bar of 0 and a
    level above 100 the bar of 100. *)
Theorem batteryBar_clamps `{Rounding} (level : number) :
  batteryBar level = batteryBar (clamp level) /\
  (lt level (of_Z 0) = true ->
     batteryBar level = batteryBar (of_Z 0) /\ batteryBar level = Ok "[..........]") /\
  (lt (of_Z 100) level = true ->
     batteryBar level = batteryBar (of_Z 100) /\ batteryBar level = Ok "[##########]").
Proof.
  split; [|split].
  - apply batteryBar_through_clamp. symmetry. apply clamp_idempotent.
  - intros Hneg.
    assert (Hclamp : clamp level = of_Z 0).
    { destruct level as [| | |q]; try discriminate; [reflexivity|].
      simpl in Hneg. apply Qltb_true in Hneg. rewrite clamp_Fin.
      case_Qltb q (inject_Z 100); [case_Qltb (inject_Z 0) q|]; [|reflexivity|].
      - change (inject_Z 0) with 0%Q in *. lra.
      - change (inject_Z 0) with 0%Q in *. change (inject_Z 100) with 100%Q in *. lra. }
    split; [|now apply batteryBar_empty].
    now apply batteryBar_through_clamp.
  - intros Hbig.
    assert (Hclamp : clamp level = of_Z 100).
    { destruct level as [| | |q]; try discriminate; [reflexivity|].
      simpl in Hbig. apply Qltb_true in Hbig. rewrite clamp_Fin.
      case_Qltb q (inject_Z 100); [|reflexivity].
      change (inject_Z 100) with 100%Q in *. lra. }
    split; [|now apply batteryBar_full].
    now apply batteryBar_through_clamp.
Qed.

Lemma batteryBar_clamps_witness :
  batteryBar (H := exact_rounding) (of_Z (-5)) = Ok "[..........]" /\
  batteryBar (H := exact_rounding) (of_Z 250) = Ok "[##########]".
Proof.
  split.
  - exact (proj2 (proj1 (proj2 (batteryBar_clamps (H := exact_rounding) (of_Z (-5)))) eq_refl)).
  - exact (proj2 (proj2 (proj2 (batteryBar_clamps (H := exact_rounding) (of_Z 250))) eq_refl)).
Defined.

(** *** The font size of the device art *)

Lemma String_split_lines_nonempty (s : string) : (1 <= List.length (String_split_lines s))%nat.
Proof.
  induction s as [|c s IH]; simpl; [lia|].
  destruct (Ascii.eqb c newline); simpl; [lia|].
  destruct (String_split_lines s); simpl in *; lia.
Qed.

(** The reducer of [longestLine] keeps an integer that is at least the
    initial one. *)
Lemma longest_line_integer (lines : list string) (z0 : Z) :
  exists z : Z, (z0 <= z)%Z /\
    Array_reduce (fun max line => Math_max max (of_nat (String.length line))) (of_Z z0) lines
    = of_Z z.
Proof.
  unfold Array_reduce. revert z0.
  induction lines as [|line lines IH]; intros z0; simpl.
  - exists z0. split; [lia|reflexivity].
  - case_Qltb (inject_Z z0) (inject_Z (Z.of_nat (String.length line))).
    + rewrite <- Zlt_Qlt in Hcmp.
      destruct (IH (Z.of_nat (String.length line))) as (z & Hz & Heq).
      exists z. split; [lia|exact Heq].
    + destruct (IH z0) as (z & Hz & Heq).
      exists z. split; [lia|exact Heq].
Qed.

Lemma Math_max_floor (lo : Z) (x : number) :
  x <> NaN ->
  Math_max (of_Z lo) x = PosInfinity \/
  exists u : Q, Math_max (of_Z lo) x = Fin u /\ (inject_Z lo <= u)%Q.
Proof.
  intros Hnan. destruct x as [| | |q]; [contradiction| | |].
  - right. exists (inject_Z lo). split; [reflexivity|apply Qle_refl].
  - left. reflexivity.
  - right. unfold of_Z, Math_max. case_Qltb (inject_Z lo) q.
    + exists q. split; [reflexivity|lra].
    + exists (inject_Z lo). split; [reflexivity|apply Qle_refl].
Qed.

(** The last line of [asciiFontSizePx]: a candidate that is a number ends
    between 4.5 and 12. *)
Lemma font_size_clamped (x : number) :
  x <> NaN ->
  let px := Math_max (Fin (9 # 2)) (Math_min (of_Z 12) x) in
  le (Fin (9 # 2)) px = true /\ le px (of_Z 12) = true.
Proof.
  intros Hnan. destruct x as [| | |q]; [contradiction| | |]; try (split; reflexivity).
  unfold of_Z, Math_min. case_Qltb q (inject_Z 12).
  - unfold Math_max. case_Qltb (9 # 2) q; simpl; split; try reflexivity.
    + apply Qle_bool_iff. lra.
    + apply Qle_bool_iff. lra.
  - split; reflexivity.
Qed.

Section FontSize.
Context `{Rounding}.

Lemma sub_Fin_not_NaN (p q : Q) : sub (Fin p) (Fin q) <> NaN.
Proof. discriminate. Qed.

(** A quotient with a positive finite numerator is a number. *)
Lemma div_positive_not_NaN (u : Q) (x : number) :
  (0 < u)%Q -> x <> NaN -> div (Fin u) x <> NaN.
Proof.
  intros Hu Hnan. destruct x as [| | |q]; [contradiction|discriminate|discriminate|].
  unfold div. destruct (Qeq_bool q 0); [|discriminate].
  rewrite Qeq_bool_false by lra.
  destruct (Qltb u 0); discriminate.
Qed.

Lemma div_usable_not_NaN (lo : Z) (size x : number) :
  (0 < lo)%Z -> size <> NaN -> size <> PosInfinity -> x <> NaN ->
  div (Math_max (of_Z lo) size) x <> NaN.
Proof.
  intros Hlo Hsize Hinf Hx.
  destruct (Math_max_floor lo size Hsize) as [Hmax|(u & Hmax & Hu)].
  - destruct size; try discriminate; try contradiction.
    unfold of_Z, Math_max in Hmax. destruct (Qltb (inject_Z lo) q); discriminate.
  - rewrite Hmax. apply div_positive_not_NaN; [|exact Hx].
    apply Qlt_le_trans with (inject_Z lo); [|exact Hu].
    change 0%Q with (inject_Z 0). now rewrite <- Zlt_Qlt.
Qed.

End FontSize.

(** C10. For every text of the device art, every width and height of the
    device section and every header height, the font size
    [asciiFontSizePx] is a number between 4.5 and 12. *)
Theorem asciiFontSizePx_range `{Rounding} (ascii : string) (width height : Q)
    (headerRef_current : option Z) :
  let px := asciiFontSizePx ascii (Fin width) (Fin height) headerRef_current in
  px <> NaN /\ le (Fin (9 # 2)) px = true /\ le px (of_Z 12) = true.
Proof.
  intros px.
  assert (Hclamped : le (Fin (9 # 2)) px = true /\ le px (of_Z 12) = true).
  { apply font_size_clamped.
    destruct (longest_line_integer (String_split_lines ascii) 1) as (z & Hz & Hlong).
    rewrite Hlong.
    assert (Hw : div (Math_max (of_Z 120) (sub (Fin width) (of_Z 40)))
                   (mul (of_Z z) (literal (62 # 100))) <> NaN).
    { apply div_usable_not_NaN; try discriminate. lia. }
    assert (Hh : div (Math_max (of_Z 60)
                        (sub (sub (Fin height)
                                (match headerRef_current with
                                 | Some h => of_Z h
                                 | None => of_Z 35
                                 end)) (of_Z 20)))
                   (mul (of_nat (List.length (String_split_lines ascii))) (literal (95 # 100)))
                 <> NaN).
    { destruct headerRef_current; apply div_usable_not_NaN; try discriminate; lia. }
    revert Hw Hh.
    generalize (div (Math_max (of_Z 120) (sub (Fin width) (of_Z 40)))
                  (mul (of_Z z) (literal (62 # 100)))).
    generalize (div (Math_max (of_Z 60)
                        (sub (sub (Fin height)
                                (match headerRef_current with
                                 | Some h => of_Z h
                                 | None => of_Z 35
                                 end)) (of_Z 20)))
                   (mul (of_nat (List.length (String_split_lines ascii))) (literal (95 # 100)))).
    intros b a Ha Hb.
    destruct a as [| | |p], b as [| | |q]; try contradiction; try discriminate.
    unfold Math_min. destruct (Qltb q p); discriminate. }
  split; [|exact Hclamped].
  destruct Hclamped as [Hlow _]. destruct px; [discriminate Hlow|discriminate..].
Qed.

Example asciiFontSizePx_NaN_width :
  asciiFontSizePx (H := exact_rounding) "" NaN (of_Z 260) None = NaN.
Proof. reflexivity. Qed.

Example asciiFontSizePx_short_art :
  asciiFontSizePx (H := exact_rounding) ("ab" ++ String newline "cd") (of_Z 420) (of_Z 260) None
  = of_Z 12.
Proof. vm_compute. reflexivity. Qed.

Example asciiFontSizePx_wide_art :
  match asciiFontSizePx (H := exact_rounding) (string_rep "x" 100) (of_Z 420) (of_Z 260) (Some 35%Z) with
  | Fin px => Qeq_bool px (190 # 31)
  | _ => false
  end = true.
Proof. vm_compute. reflexivity. Qed.

(** *** The battery window *)

Lemma batteryBar_total `{Rounding} (level : number) :
  exists text : string, batteryBar level = Ok text.
Proof.
  destruct level as [| | |q] eqn:Hlevel.
  - exists "[]". reflexivity.
  - exists "[..........]". apply batteryBar_empty. reflexivity.
  - exists "[##########]". apply batteryBar_full. reflexivity.
  - destruct (clamp_range (Fin q)) as (c & Hclamp & Hc & _); [discriminate|].
    exists (bar (Z.to_nat (cells c))). apply batteryBar_clamped; assumption.
Qed.

Lemma battery_row_total `{Rounding} (digits : Q -> string) (label : string) (b : BatteryReading) :
  exists text : string,
    batteryBar (level b) = Ok text /\
    battery_row digits label b =
      Ok (Row label (text ++ " " ++ Number_toString digits (level b) ++ "%"
                     ++ (if charging b then " CHG" else ""))).
Proof.
  destruct (batteryBar_total (level b)) as (text & Hbar).
  exists text. split; [exact Hbar|].
  unfold battery_row, battery_text. rewrite Hbar. reflexivity.
Qed.

(** C6. For every properties object: when [caseBattery] is left out or
    null the battery window has the Left and Right rows and no Case row;
    when it is present, whatever its level (0 included), the window has a
    third row, labelled Case, with the bar and the percentage of that
    level. *)
Theorem case_row_iff_present `{Rounding} (digits : Q -> string) (p : Properties) :
  exists rows : list element,
    battery_window digits (Some p) = Ok rows /\
    match caseBattery p with
    | Value b =>
        has_row "Case" rows = true /\
        exists text : string,
          batteryBar (level b) = Ok text /\
          nth_error rows 2 =
            Some (Row "Case" (text ++ " " ++ Number_toString digits (level b) ++ "%"
                              ++ (if charging b then " CHG" else ""))) /\
          (level b = of_Z 0 ->
             nth_error rows 2 =
               Some (Row "Case" ("[..........] 0%" ++ (if charging b then " CHG" else ""))))
    | Undefined | Null =>
        has_row "Case" rows = false /\ List.length rows = 2%nat
    end.
Proof.
  destruct (battery_row_total digits "Left" (leftBattery p)) as (lt & _ & Hl).
  destruct (battery_row_total digits "Right" (rightBattery p)) as (rt & _ & Hr).
  unfold battery_window. rewrite Hl, Hr.
  destruct (caseBattery p) as [| |b]; simpl.
  - eexists. split; [reflexivity|]. split; reflexivity.
  - eexists. split; [reflexivity|]. split; reflexivity.
  - destruct (battery_row_total digits "Case" b) as (ct & Hbar & Hc).
    rewrite Hc. eexists. split; [reflexivity|]. split; [reflexivity|].
    exists ct. split; [exact Hbar|]. split; [reflexivity|].
    intros Hzero. simpl. rewrite Hzero in Hbar |- *.
    rewrite (batteryBar_empty (of_Z 0) eq_refl) in Hbar.
    injection Hbar as <-. reflexivity.
Qed.

Lemma case_row_iff_present_witness :
  battery_window (H := exact_rounding) (fun _ => "")
    (Some {| model := "AirPodsPro2";
             leftBattery := {| level := of_Z 80; charging := false |};
             rightBattery := {| level := of_Z 75; charging := true |};
             caseBattery := Value {| level := of_Z 0; charging := false |};
             leftInEar := true;
             rightInEar := false |})
  = Ok [ Row "Left" "[########..] 80%";
         Row "Right" "[########..] 75% CHG";
         Row "Case" "[..........] 0%" ].
Proof.
  destruct (case_row_iff_present (H := exact_rounding) (fun _ => "")
              {| model := "AirPodsPro2";
                 leftBattery := {| level := of_Z 80; charging := false |};
                 rightBattery := {| level := of_Z 75; charging := true |};
                 caseBattery := Value {| level := of_Z 0; charging := false |};
                 leftInEar := true;
                 rightInEar := false |}) as (rows & Hrows & _).
  vm_compute. reflexivity.
Defined.

Example battery_window_without_case :
  battery_window (H := exact_rounding) (fun _ => "")
    (Some {| model := "AirPodsMax";
             leftBattery := {| level := of_Z 80; charging := false |};
             rightBattery := {| level := of_Z 75; charging := true |};
             caseBattery := Null;
             leftInEar := true;
             rightInEar := false |})
  = Ok [ Row "Left" "[########..] 80%"; Row "Right" "[########..] 75% CHG" ].
Proof. vm_compute. reflexivity. Qed.

Example battery_window_no_properties :
  battery_window (H := exact_rounding) (fun _ => "") None
  = Ok [ Fallback "No battery data available." ].
Proof. reflexivity. Qed.

Example batteryBar_55 : batteryBar (H := exact_rounding) (of_Z 55) = Ok "[######....]".
Proof. vm_compute. reflexivity. Qed.

Example batteryBar_54 : batteryBar (H := exact_rounding) (of_Z 54) = Ok "[#####.....]".
Proof. vm_compute. reflexivity. Qed.

(** On every whole level from -20 to 120 the rational model (run without
    rounding error) and the function on binary64 give the same bar. *)
Example batteryBar_binary64_levels :
  forallb (fun z => match Binary64.batteryBar (Binary64.of_Z z),
                          batteryBar (H := exact_rounding) (of_Z z) with
                    | Ok a, Ok b => String.eqb a b
                    | _, _ => false
                    end)
          (map (fun k => Z.of_nat k - 20)%Z (seq 0 141)) = true.
Proof. vm_compute. reflexivity. Qed.

Example batteryBar_binary64_NaN : Binary64.batteryBar PrimFloat.nan = Ok "[]".
Proof. vm_compute. reflexivity. Qed.

Example batteryBar_grid :
  batteryBar (H := grid_rounding) (Fin (1 # 3)) = Ok "[..........]" /\
  batteryBar (H := grid_rounding) (Fin (2749 # 50)) = Ok "[#####.....]" /\
  batteryBar (H := grid_rounding) (Fin (2751 # 50)) = Ok "[######....]".
Proof. vm_compute. repeat split. Qed.

Example batteryBar_NaN : batteryBar (H := exact_rounding) NaN = Ok "[]".
Proof. vm_compute. reflexivity. Qed.

Example batteryBar_NegInfinity : batteryBar (H := exact_rounding) NegInfinity = Ok "[..........]".
Proof. vm_compute. reflexivity. Qed.

End AppSpec.

(** ** The preload bridge and the IPC handlers *)

Module BridgeSpec.
Import JS Main Preload.

Lemma call_status (JSON_parse : string -> result json) :
  call JSON_parse "backend" "status" = backend_status.
Proof. reflexivity. Qed.

Lemma call_restart (JSON_parse : string -> result json) :
  call JSON_parse "backend" "restart" = backend_restart.
Proof. reflexivity. Qed.

Lemma call_data (JSON_parse : string -> result json) :
  call JSON_parse "backend" "data" = backend_data JSON_parse.
Proof. reflexivity. Qed.

(** C5. The preload script exposes one object, [backend], and that
    object has exactly the three operations [status], [restart] and
    [data]: a call of anything else on the bridge finds no function. *)
Theorem bridge_exposes_three_operations :
  dom mainWorld = ({[ "backend" ]} : gset string) /\
  dom backend = ({[ "status"; "restart"; "data" ]} : gset string) /\
  size backend = 3%nat /\
  (forall object method : string,
     is_Some (mainWorld !! object ≫= (fun api => api !! method)) <->
     object = "backend" /\ (method = "status" \/ method = "restart" \/ method = "data")).
Proof.
  split; [|split; [|split]].
  - unfold mainWorld, exposeInMainWorld. rewrite dom_insert_L, dom_empty_L. set_solver.
  - unfold backend. rewrite !dom_insert_L, dom_singleton_L. set_solver.
  - reflexivity.
  - intros object method. unfold mainWorld, exposeInMainWorld. split.
    + intros [channel Hcall].
      destruct (decide (object = "backend")) as [->|Hobj].
      * split; [reflexivity|].
        rewrite lookup_insert_eq in Hcall. simpl in Hcall.
        assert (Hin : method ∈ dom backend) by (apply elem_of_dom; eauto).
        unfold backend in Hin. rewrite !dom_insert_L, dom_singleton_L in Hin. set_solver.
      * rewrite lookup_insert_ne, lookup_empty in Hcall by congruence. discriminate.
    + intros [-> [-> | [-> | ->]]]; eexists; reflexivity.
Qed.

End BridgeSpec.

(** ** The main process *)

Module MainSpec.
Import JS Main Preload.

Lemma stopBackend_clears (st : state) :
  backendProcess (stopBackend st) = None /\ spawned (stopBackend st) = spawned st.
Proof.
  unfold stopBackend. destruct (backendProcess st) as [handle|] eqn:Hh; [|now rewrite Hh].
  split; reflexivity.
Qed.

Lemma stopBackend_signals (st : state) (handle : nat) (p : process) :
  backendProcess st = Some handle -> processes st !! handle = Some p ->
  processes (stopBackend st) !! handle = Some {| launched := launched p; status := Signalled |}.
Proof.
  intros Hh Hp. unfold stopBackend, kill. rewrite Hh, Hp. simpl.
  apply lookup_insert_eq.
Qed.

Lemma stopBackend_other (st : state) (handle other : nat) :
  backendProcess st = Some handle -> other <> handle ->
  processes (stopBackend st) !! other = processes st !! other.
Proof.
  intros Hh Hne. unfold stopBackend, kill. rewrite Hh.
  destruct (processes st !! handle); simpl; [|reflexivity].
  now apply lookup_insert_ne.
Qed.

Lemma startBackend_holds (env : environment) (st : state) (handle : nat) :
  backendProcess st = Some handle -> startBackend env st = Ok st.
Proof. intros Hh. unfold startBackend. now rewrite Hh. Qed.

(** What [startBackend] leaves when nothing is tracked: by what the host
    does with the spawn. *)
Lemma startBackend_outcome (env : environment) (st : state) :
  backendProcess st = None ->
  match launches env (spawned st) (resolveBackendCommand env) with
  | Started =>
      startBackend env st =
        Ok {| backendProcess := Some (spawned st);
              processes := <[spawned st := {| launched := resolveBackendCommand env;
                                              status := Alive |}]> (processes st);
              spawned := S (spawned st);
              console := console st |}
  | Refused _ =>
      startBackend env st =
        Ok {| backendProcess := Some (spawned st);
              processes := processes st;
              spawned := S (spawned st);
              console := console st |}
  | Thrown code => startBackend env st = Throw (SystemError code)
  end.
Proof.
  intros Hnone. unfold startBackend, spawn. rewrite Hnone.
  destruct (launches env (spawned st) (resolveBackendCommand env)); reflexivity.
Qed.

Lemma startBackend_spawns (env : environment) (st : state) :
  backendProcess st = None ->
  started env (spawned st) ->
  exists st' : state,
    startBackend env st = Ok st' /\
    backend_runs env st' (spawned st) /\
    spawned st' = S (spawned st) /\
    (forall other, other <> spawned st -> processes st' !! other = processes st !! other).
Proof.
  intros Hnone Hstarted. pose proof (startBackend_outcome env st Hnone) as Hout.
  unfold started in Hstarted. rewrite Hstarted in Hout.
  eexists. split; [exact Hout|]. unfold backend_runs. simpl.
  split; [split; [reflexivity|apply lookup_insert_eq]|].
  split; [reflexivity|].
  intros other Hne. now apply lookup_insert_ne.
Qed.

(** On a host that starts the backend, a restart leaves a running backend
    under a new handle. *)
Lemma restart_runs (env : environment) (fs : gmap path file) (st : state) :
  started env (spawned st) ->
  exists st' : state,
    backend_restart env fs st = Ok (Status true, st') /\
    backend_runs env st' (spawned st) /\
    spawned st' = S (spawned st) /\
    (forall handle p, backendProcess st = Some handle -> handle <> spawned st ->
       processes st !! handle = Some p ->
       processes st' !! handle = Some {| launched := launched p; status := Signalled |}).
Proof.
  intros Hstarted.
  destruct (stopBackend_clears st) as [Hcleared Hcount].
  rewrite <- Hcount in Hstarted.
  destruct (startBackend_spawns env (stopBackend st) Hcleared Hstarted)
    as (st' & Hstart & Hruns & Hnext & Hother).
  rewrite Hcount in Hruns, Hnext, Hother.
  exists st'.
  split; [|split; [exact Hruns|split; [exact Hnext|]]].
  - unfold backend_restart. rewrite Hstart. simpl.
    destruct Hruns as [Hh _]. rewrite Hh. reflexivity.
  - intros handle p Hh Hne Hp. rewrite Hother by exact Hne.
    now apply stopBackend_signals.
Qed.

(** What holds when the handler returns, on a host that starts the
    backend: the handle is set, [status] answers that the backend runs,
    and a second [restart] right after the first returns the same, the
    backend of the first call signalled. What holds later is another
    matter: see [restart_loses_the_backend]. *)
Lemma restart_twice_at_return (JSON_parse : string -> result json)
    (env : environment) (fs : gmap path file) (st : state) :
  started env (spawned st) -> started env (S (spawned st)) ->
  exists (st1 st2 : state) (h1 h2 : nat),
    call JSON_parse "backend" "restart" env fs st = Ok (Status true, st1) /\
    backend_runs env st1 h1 /\
    call JSON_parse "backend" "status" env fs st1 = Ok (Status true, st1) /\
    call JSON_parse "backend" "restart" env fs st1 = Ok (Status true, st2) /\
    backend_runs env st2 h2 /\
    call JSON_parse "backend" "status" env fs st2 = Ok (Status true, st2) /\
    h1 <> h2 /\
    processes st2 !! h1 =
      Some {| launched := resolveBackendCommand env; status := Signalled |}.
Proof.
  intros Hfirst Hsecond.
  destruct (restart_runs env fs st Hfirst) as (st1 & Hr1 & Hruns1 & Hn1 & _).
  rewrite <- Hn1 in Hsecond.
  destruct (restart_runs env fs st1 Hsecond) as (st2 & Hr2 & Hruns2 & Hn2 & Hold).
  exists st1, st2, (spawned st), (spawned st1).
  assert (Hne : spawned st <> spawned st1) by lia.
  split; [exact Hr1|]. split; [exact Hruns1|].
  split; [|split; [exact Hr2|split; [exact Hruns2|split; [|split; [exact Hne|]]]]].
  - change (backend_status env fs st1 = Ok (Status true, st1)).
    unfold backend_status. destruct Hruns1 as [-> _]. reflexivity.
  - change (backend_status env fs st2 = Ok (Status true, st2)).
    unfold backend_status. destruct Hruns2 as [-> _]. reflexivity.
  - destruct Hruns1 as [Hh Hp]. exact (Hold _ _ Hh Hne Hp).
Qed.

(** C4. [restart()] is not idempotent, and what it answers does not last.
    The ["exit"] listener that [startBackend] puts on a process clears
    [backendProcess] whichever process that variable names by then. On a
    host that starts every backend, with the application ready and
    backend 0 running: [restart()] answers that the backend runs (backend
    1 does, backend 0 has been signalled); when backend 0 is gone its
    listener has cleared the handle, so [status()] answers that nothing
    runs although backend 1 does, and a further [restart()] starts backend
    2 beside it. From the start, one [restart()] leaves a handle that no
    pending exit clears (no process has been signalled); two leave one
    that the exit of the first backend clears. *)
Theorem restart_loses_the_backend (JSON_parse : string -> result json) :
  let env := sample_environment in
  let runs := {| launched := resolveBackendCommand env; status := Alive |} in
  exists ready once gone again : state,
    startBackend env initial = Ok ready /\
    backend_runs env ready 0 /\
    call JSON_parse "backend" "restart" env ∅ ready = Ok (Status true, once) /\
    processes once = {[ 0%nat := {| launched := resolveBackendCommand env;
                                    status := Signalled |};
                        1%nat := runs ]} /\
    gone = on_exit 0 None once /\
    call JSON_parse "backend" "status" env ∅ gone = Ok (Status false, gone) /\
    processes gone = {[ 1%nat := runs ]} /\
    call JSON_parse "backend" "restart" env ∅ gone = Ok (Status true, again) /\
    processes again = {[ 1%nat := runs; 2%nat := runs ]} /\
    call JSON_parse "backend" "restart" env ∅ initial = Ok (Status true, ready) /\
    processes ready = {[ 0%nat := runs ]} /\
    call JSON_parse "backend" "restart" env ∅ ready = Ok (Status true, once) /\
    backendProcess (on_exit 0 None once) = None.
Proof.
  intros env runs.
  exists {| backendProcess := Some 0%nat; processes := {[ 0%nat := runs ]};
            spawned := 1; console := [] |}.
  eexists. eexists. eexists.
  split; [reflexivity|]. split; [split; reflexivity|].
  split; [reflexivity|]. split; [reflexivity|]. split; [reflexivity|].
  split; [reflexivity|]. split; [reflexivity|]. split; [reflexivity|].
  split; [reflexivity|]. split; [reflexivity|]. split; [reflexivity|].
  split; reflexivity.
Qed.

(** Where the host cannot start the backend (the command is missing),
    [restart()] and [status()] answer that it runs: the handle is set and
    names no process. *)
Example running_without_process :
  exists st : state,
    backend_restart sample_host_without_backend ∅ initial = Ok (Status true, st) /\
    backend_status sample_host_without_backend ∅ st = Ok (Status true, st) /\
    backendProcess st = Some 0%nat /\
    processes st = ∅.
Proof. eexists. repeat split. Qed.

(** Where [spawn] throws, [restart()] is rejected, and the backend that
    ran before it has been signalled and is not tracked. *)
Example restart_rejected :
  let env := sample_host_that_throws in
  let st := {| backendProcess := Some 0%nat;
               processes := {[ 0%nat := {| launched := resolveBackendCommand env;
                                           status := Alive |} ]};
               spawned := 1; console := [] |} in
  backend_restart env ∅ st = Throw (SystemError "UNKNOWN") /\
  backendProcess (rejected "backend:restart" st) = None /\
  processes (rejected "backend:restart" st)
    = {[ 0%nat := {| launched := resolveBackendCommand env; status := Signalled |} ]}.
Proof. repeat split. Qed.

(** What [rejected] says of the restart handler: it throws only what
    [startBackend] throws once the backend is stopped. *)
Lemma restart_rejected_after_stop (env : environment) (fs : gmap path file) (st : state)
    (e : exn) :
  backend_restart env fs st = Throw e ->
  startBackend env (stopBackend st) = Throw e /\
  rejected "backend:restart" st = stopBackend st.
Proof.
  unfold backend_restart. intros Hthrow. split; [|reflexivity].
  destruct (startBackend env (stopBackend st)) as [st'|e']; [discriminate|].
  simpl in Hthrow. congruence.
Qed.

(** *** The state file *)

Lemma read_state_absent (JSON_parse : string -> result json)
    (env : environment) (fs : gmap path file) :
  fs !! resolveStatePath env = None -> read_state JSON_parse env fs = Ok JNull.
Proof.
  intros Hnone. unfold read_state, existsSync. rewrite Hnone.
  rewrite bool_decide_eq_false_2; [reflexivity|].
  intros [x Hx]. discriminate.
Qed.

Lemma read_state_present (JSON_parse : string -> result json)
    (env : environment) (fs : gmap path file) (f : file) :
  fs !! resolveStatePath env = Some f ->
  read_state JSON_parse env fs =
    match f with
    | Regular raw => try_catch (JSON_parse raw) (fun _ => Ok JNull)
    | Unreadable _ => Ok JNull
    end.
Proof.
  intros Hsome. unfold read_state, existsSync, readFileSync. rewrite Hsome.
  rewrite bool_decide_eq_true_2 by eauto.
  destruct f; reflexivity.
Qed.

(** C3. [data()] returns null when there is no state file, and the
    document the state file holds (the text last published, read back by
    [JSON.parse]) when there is one. *)
Theorem data_is_published_document (JSON_parse : string -> result json)
    (env : environment) (fs : gmap path file) (st : state) :
  (fs !! resolveStatePath env = None ->
     call JSON_parse "backend" "data" env fs st = Ok (Document JNull, st)) /\
  (forall (raw : string) (doc : json),
     fs !! resolveStatePath env = Some (Regular raw) ->
     JSON_parse raw = Ok doc ->
     call JSON_parse "backend" "data" env fs st = Ok (Document doc, st)).
Proof.
  change (call JSON_parse "backend" "data") with (backend_data JSON_parse).
  unfold backend_data. split.
  - intros Hnone. now rewrite read_state_absent.
  - intros raw doc Hfile Hparse.
    rewrite (read_state_present _ _ _ _ Hfile), Hparse. reflexivity.
Qed.

Lemma data_is_published_document_witness :
  call Keywords.parse "backend" "data" sample_environment ∅ initial
    = Ok (Document JNull, initial) /\
  call Keywords.parse "backend" "data" sample_environment
    {[ resolveStatePath sample_environment := Regular "true" ]} initial
    = Ok (Document (JBool true), initial).
Proof.
  split.
  - exact (proj1 (data_is_published_document Keywords.parse sample_environment ∅ initial)
             eq_refl).
  - exact (proj2 (data_is_published_document Keywords.parse sample_environment
                    {[ resolveStatePath sample_environment := Regular "true" ]} initial)
             "true" (JBool true) eq_refl eq_refl).
Defined.

(** C9. [data()] never throws. It returns null when the state file exists
    and cannot be read, and when its text is not JSON; what it returns
    other than null is what [JSON.parse] made of the file's text. *)
Theorem data_never_throws (JSON_parse : string -> result json)
    (env : environment) (fs : gmap path file) (st : state) :
  exists doc : json,
    call JSON_parse "backend" "data" env fs st = Ok (Document doc, st) /\
    (forall code, fs !! resolveStatePath env = Some (Unreadable code) -> doc = JNull) /\
    (forall raw e, fs !! resolveStatePath env = Some (Regular raw) ->
       JSON_parse raw = Throw e -> doc = JNull) /\
    (doc <> JNull ->
       exists raw, fs !! resolveStatePath env = Some (Regular raw) /\ JSON_parse raw = Ok doc).
Proof.
  change (call JSON_parse "backend" "data") with (backend_data JSON_parse).
  unfold backend_data.
  destruct (fs !! resolveStatePath env) as [[raw|code]|] eqn:Hfile.
  - rewrite (read_state_present _ _ _ _ Hfile).
    destruct (JSON_parse raw) as [doc|e] eqn:Hparse.
    + exists doc. split; [reflexivity|]. split; [discriminate|]. split.
      * intros raw' e [= <-]. congruence.
      * intros _. exists raw. split; [reflexivity|exact Hparse].
    + exists JNull. split; [reflexivity|]. split; [reflexivity|]. split; [reflexivity|].
      intros Hne. contradiction.
  - rewrite (read_state_present _ _ _ _ Hfile).
    exists JNull. split; [reflexivity|]. split; [reflexivity|]. split; [reflexivity|].
    intros Hne. contradiction.
  - rewrite (read_state_absent _ _ _ Hfile).
    exists JNull. split; [reflexivity|]. split; [reflexivity|]. split; [reflexivity|].
    intros Hne. contradiction.
Qed.

Example data_unreadable_file :
  call Keywords.parse "backend" "data" sample_environment
    {[ resolveStatePath sample_environment := Unreadable "EBUSY" ]} initial
  = Ok (Document JNull, initial).
Proof. reflexivity. Qed.

Example data_torn_text :
  call Keywords.parse "backend" "data" sample_environment
    {[ resolveStatePath sample_environment := Regular "tr" ]} initial
  = Ok (Document JNull, initial).
Proof. reflexivity. Qed.

End MainSpec.

(** ** The session engine *)

Module BackendSpec.
Import JS Backend.

(** *** The low-battery alert *)

Section Policy.
Variables threshold margin : Z.
Variable reading : Z * Z.
Variable s : session.

Lemma update_idle :
  lowBatteryAlerted s = false -> (threshold <= Z.min (fst reading) (snd reading))%Z ->
  battery_update threshold margin reading s = s.
Proof.
  intros Hflag Hlevel. unfold battery_update. rewrite Hflag.
  destruct (Z.ltb_spec (Z.min (fst reading) (snd reading)) threshold); [lia|reflexivity].
Qed.

Lemma update_alerts :
  lowBatteryAlerted s = false -> (Z.min (fst reading) (snd reading) < threshold)%Z ->
  battery_update threshold margin reading s
  = {| lowBatteryAlerted := true; alerts := S (alerts s) |}.
Proof.
  intros Hflag Hlevel. unfold battery_update. rewrite Hflag.
  destruct (Z.ltb_spec (Z.min (fst reading) (snd reading)) threshold); [reflexivity|lia].
Qed.

Lemma update_stays_alerted :
  lowBatteryAlerted s = true ->
  (Z.min (fst reading) (snd reading) <= threshold + margin)%Z ->
  battery_update threshold margin reading s = s.
Proof.
  intros Hflag Hlevel. unfold battery_update. rewrite Hflag.
  destruct (Z.ltb_spec (threshold + margin) (Z.min (fst reading) (snd reading)));
    [lia|reflexivity].
Qed.

Lemma update_recovers :
  lowBatteryAlerted s = true ->
  (threshold + margin < Z.min (fst reading) (snd reading))%Z ->
  battery_update threshold margin reading s
  = {| lowBatteryAlerted := false; alerts := alerts s |}.
Proof.
  intros Hflag Hlevel. unfold battery_update. rewrite Hflag.
  destruct (Z.ltb_spec (threshold + margin) (Z.min (fst reading) (snd reading)));
    [reflexivity|lia].
Qed.

End Policy.

Lemma feed_cons (threshold margin : Z) (reading : Z * Z) (rest : list (Z * Z)) (s : session) :
  feed threshold margin (reading :: rest) s
  = battery_update threshold margin reading s
      :: feed threshold margin rest (battery_update threshold margin reading s).
Proof. reflexivity. Qed.

(** C7. With the threshold at 20 and a hysteresis margin below 2, battery
    updates whose lower bud levels are 25, 18, 15 and 22 leave
    [lowBatteryAlerted] at false, true, true and false: one alert, at 18,
    none at 15, and the flag is lowered at 22. *)
Theorem low_battery_alert_sequence (margin : Z) (readings : list (Z * Z)) :
  (0 <= margin < 2)%Z ->
  map (fun r => Z.min (fst r) (snd r)) readings = [ 25; 18; 15; 22 ]%Z ->
  map lowBatteryAlerted (feed 20 margin readings fresh_session)
    = [ false; true; true; false ] /\
  map alerts (feed 20 margin readings fresh_session) = [ 0; 1; 1; 1 ]%nat.
Proof.
  intros Hmargin Hlevels.
  destruct readings as [|r1 [|r2 [|r3 [|r4 [|r5 rest]]]]]; try discriminate.
  injection Hlevels as H1 H2 H3 H4.
  rewrite feed_cons, (update_idle 20 margin r1) by (reflexivity || lia).
  rewrite feed_cons, (update_alerts 20 margin r2) by (reflexivity || lia).
  rewrite feed_cons, (update_stays_alerted 20 margin r3) by (reflexivity || lia).
  rewrite feed_cons, (update_recovers 20 margin r4) by (reflexivity || lia).
  split; reflexivity.
Qed.

Lemma low_battery_alert_sequence_witness :
  map lowBatteryAlerted
    (feed 20 1 [ (25, 40); (30, 18); (15, 15); (22, 90) ]%Z fresh_session)
    = [ false; true; true; false ] /\
  map alerts (feed 20 1 [ (25, 40); (30, 18); (15, 15); (22, 90) ]%Z fresh_session)
    = [ 0; 1; 1; 1 ]%nat.
Proof.
  apply (low_battery_alert_sequence 1 [ (25, 40); (30, 18); (15, 15); (22, 90) ]%Z).
  - lia.
  - reflexivity.
Defined.

(** With a margin of 2 or more the level 22 is not a recovery. *)
Example wide_margin_keeps_alert :
  map lowBatteryAlerted
    (feed 20 2 [ (25, 25); (18, 18); (15, 15); (22, 22) ]%Z fresh_session)
  = [ false; true; true; true ].
Proof. reflexivity. Qed.

(** *** The publisher and its reader *)

Section Atomicity.
Variable env : Main.environment.
Variable serialize : json -> string.

Lemma tempPath_not_statePath : tempPath env <> statePath env.
Proof.
  unfold tempPath, statePath, Main.resolveStatePath, Main.path_join.
  intros Heq. apply app_inv_head in Heq. discriminate.
Qed.

Lemma starting_consistent (fs : gmap Main.path Main.file) :
  consistent env serialize [] (starting env fs).
Proof.
  unfold consistent, starting. simpl. split; [apply lookup_delete_eq|].
  split; [tauto|discriminate].
Qed.

Lemma consistent_weaken (docs docs' : list json) (st : publisher) :
  (forall doc, In doc docs -> In doc docs') ->
  consistent env serialize docs st -> consistent env serialize docs' st.
Proof.
  intros Hsub (Hfile & Hpub & Hpend). split; [exact Hfile|]. split; eauto.
Qed.

(** Every move keeps the state file whole. *)
Lemma perform_consistent (docs : list json) (a : action) (st st' : publisher) :
  perform env serialize a st = Some st' ->
  consistent env serialize docs st ->
  consistent env serialize (begun [ a ] ++ docs)%list st'.
Proof.
  pose proof tempPath_not_statePath as Hne.
  intros Hstep (Hfile & Hpub & Hpend). unfold perform in Hstep. unfold consistent.
  destruct a as [doc|chunk| |]; destruct (pending st) as [cur|] eqn:Hcur;
    try discriminate; simpl.
  - injection Hstep as <-. simpl. split; [|split].
    + now rewrite lookup_insert_ne.
    + intros d Hd. right. now apply Hpub.
    + intros d [= <-]. now left.
  - destruct (files st !! tempPath env) as [[written|]|]; try discriminate.
    destruct (String.prefix (written ++ chunk) (serialize cur)); [|discriminate].
    injection Hstep as <-. simpl. split; [|split].
    + now rewrite lookup_insert_ne.
    + exact Hpub.
    + intros d [= <-]. now apply Hpend.
  - destruct (files st !! tempPath env) as [[written|]|]; try discriminate.
    destruct (String.eqb written (serialize cur)) eqn:Hwhole; [|discriminate].
    apply String.eqb_eq in Hwhole. subst written.
    injection Hstep as <-. simpl. split; [|split].
    + apply lookup_insert_eq.
    + intros d [<-|Hd]; [now apply Hpend|now apply Hpub].
    + discriminate.
  - injection Hstep as <-. simpl. split; [|split].
    + now rewrite lookup_delete_ne.
    + exact Hpub.
    + discriminate.
Qed.

Lemma begun_app (xs ys : list action) : begun (xs ++ ys) = (begun xs ++ begun ys)%list.
Proof.
  induction xs as [|[doc|chunk| |] xs IH]; simpl; [reflexivity| |assumption..].
  now rewrite IH.
Qed.

Lemma run_consistent (actions : list action) (docs : list json) (st st' : publisher) :
  run env serialize actions st = Some st' ->
  consistent env serialize docs st ->
  consistent env serialize (begun actions ++ docs)%list st'.
Proof.
  revert docs st. induction actions as [|a actions IH]; intros docs st Hrun Hst.
  - injection Hrun as <-. exact Hst.
  - simpl in Hrun.
    destruct (perform env serialize a st) as [mid|] eqn:Hstep; [|discriminate].
    pose proof (perform_consistent docs a st mid Hstep Hst) as Hmid.
    pose proof (IH _ _ Hrun Hmid) as Hend.
    revert Hend. apply consistent_weaken. intros doc Hin.
    change (a :: actions) with ([ a ] ++ actions)%list. rewrite begun_app.
    rewrite !in_app_iff in *. tauto.
Qed.

End Atomicity.

(** C8. Publication is atomic. However far the publisher has come (between
    two publications, or part of the way through writing the next document
    to its temporary file), the state file is either missing, before the
    first publication, or the whole text of the latest published document;
    so [data()]'s reading of it at that moment gives that document, and
    never fails on a half-written one. *)
Theorem publication_is_atomic (env : Main.environment) (serialize : json -> string)
    (JSON_parse : string -> result json) (fs : gmap Main.path Main.file)
    (actions : list action) (st : publisher) :
  (forall doc, In doc (begun actions) -> JSON_parse (serialize doc) = Ok doc) ->
  run env serialize actions (starting env fs) = Some st ->
  files st !! Main.resolveStatePath env
    = (fun doc => Main.Regular (serialize doc)) <$> head (published st) /\
  Main.read_state JSON_parse env (files st)
    = Ok (match published st with doc :: _ => doc | [] => JNull end).
Proof.
  intros Hround Hrun.
  destruct (run_consistent env serialize actions [] _ _ Hrun (starting_consistent env serialize fs))
    as (Hfile & Hpub & _).
  split; [exact Hfile|].
  change (statePath env) with (Main.resolveStatePath env) in Hfile.
  destruct (published st) as [|doc older]; simpl in Hfile.
  - now apply MainSpec.read_state_absent.
  - rewrite (MainSpec.read_state_present _ _ _ _ Hfile).
    rewrite Hround; [reflexivity|].
    specialize (Hpub doc (or_introl eq_refl)).
    rewrite in_app_iff in Hpub. destruct Hpub as [Hin|[]]. exact Hin.
Qed.

Lemma publication_is_atomic_witness :
  exists st : publisher,
    run Main.sample_environment Keywords.stringify sample_run
      (starting Main.sample_environment ∅) = Some st /\
    files st !! tempPath Main.sample_environment = Some (Main.Regular "tr") /\
    Main.read_state Keywords.parse Main.sample_environment (files st) = Ok JNull.
Proof.
  eexists. split; [reflexivity|]. split; [reflexivity|].
  refine (proj2 (publication_is_atomic Main.sample_environment Keywords.stringify
                   Keywords.parse ∅ sample_run _ _ eq_refl)).
  intros doc [<-|[<-|[]]]; reflexivity.
Defined.

End BackendSpec.

(** ** The choice of the device art *)

Module ArtSpec.
Import JS JSString Art.

Lemma lower_lower (c : ascii) : lower (lower c) = lower c.
Proof. destruct c as [[] [] [] [] [] [] [] []]; reflexivity. Qed.

Lemma lower_upper (c : ascii) : lower (upper c) = lower c.
Proof. destruct c as [[] [] [] [] [] [] [] []]; reflexivity. Qed.

Lemma toLowerCase_toLowerCase (s : string) :
  String_toLowerCase (String_toLowerCase s) = String_toLowerCase s.
Proof.
  induction s as [|c s IH]; [reflexivity|].
  cbn [String_toLowerCase]. now rewrite lower_lower, IH.
Qed.

Lemma toLowerCase_toUpperCase (s : string) :
  forall capitals : string,
    String_toUpperCase s = Some capitals ->
    String_toLowerCase capitals = String_toLowerCase s /\
    truthy_string capitals = truthy_string s.
Proof.
  induction s as [|c s IH]; intros capitals Hup.
  - injection Hup as <-. split; reflexivity.
  - cbn [String_toUpperCase] in Hup.
    destruct (is_ascii c); [|discriminate].
    destruct (String_toUpperCase s) as [rest|]; [|discriminate].
    injection Hup as <-. destruct (IH rest eq_refl) as [Hrest _].
    split; [|reflexivity].
    cbn [String_toLowerCase]. now rewrite lower_upper, Hrest.
Qed.

Lemma truthy_toLowerCase (s : string) :
  truthy_string (String_toLowerCase s) = truthy_string s.
Proof. destruct s; reflexivity. Qed.

(** A text that starts with [a ++ b] starts with [a]. *)
Lemma prefix_app_l (a b s : string) :
  String.prefix (a ++ b) s = true -> String.prefix a s = true.
Proof.
  revert s. induction a as [|c a IH]; intros s Hp.
  - destruct s; reflexivity.
  - destruct s as [|d s]; [discriminate|].
    simpl in Hp |- *.
    destruct (ascii_dec c d); [|discriminate]. now apply IH.
Qed.

(** A text that includes [a ++ b] includes [a]. *)
Lemma includes_app_l (a b s : string) :
  String_includes s (a ++ b) = true -> String_includes s a = true.
Proof.
  induction s as [|d s IH]; cbn [String_includes]; intros Hin.
  - rewrite orb_false_r in Hin |- *. now apply prefix_app_l with b.
  - apply orb_true_iff in Hin. apply orb_true_iff.
    destruct Hin as [Hp|Hin]; [left; now apply prefix_app_l with b|right; now apply IH].
Qed.

Lemma includes_false_app (a b s : string) :
  String_includes s a = false -> String_includes s (a ++ b) = false.
Proof.
  intros Hno. destruct (String_includes s (a ++ b)) eqn:Hin; [|reflexivity].
  apply includes_app_l in Hin. congruence.
Qed.

Lemma mapModelToAsciiId_lower (model : string) :
  mapModelToAsciiId (Some model) =
    if negb (truthy_string model) then None
    else mapModelToAsciiId (Some (String_toLowerCase model)).
Proof.
  unfold mapModelToAsciiId.
  rewrite truthy_toLowerCase, toLowerCase_toLowerCase.
  destruct (negb (truthy_string model)); reflexivity.
Qed.

(** X1. The case of the letters of an ASCII model name does not matter to
    [mapModelToAsciiId]: for a name of ASCII characters, the name in
    capitals and the name in small letters get the id of the name as
    written. (Of a name with other characters nothing is said: U+017F in
    capitals is S.) *)
Theorem mapModelToAsciiId_ignores_case (model capitals : string) :
  String_toUpperCase model = Some capitals ->
  mapModelToAsciiId (Some capitals) = mapModelToAsciiId (Some model) /\
  mapModelToAsciiId (Some (String_toLowerCase model)) = mapModelToAsciiId (Some model).
Proof.
  intros Hup. destruct (toLowerCase_toUpperCase model capitals Hup) as [Hlower Htruthy].
  split.
  - unfold mapModelToAsciiId. now rewrite Htruthy, Hlower.
  - unfold mapModelToAsciiId.
    now rewrite truthy_toLowerCase, toLowerCase_toLowerCase.
Qed.

Lemma mapModelToAsciiId_ignores_case_witness :
  String_toUpperCase "AirPodsMax" = Some "AIRPODSMAX" /\
  mapModelToAsciiId (Some "AIRPODSMAX") = Some "airpods-max" /\
  mapModelToAsciiId (Some "airpodsmax") = Some "airpods-max".
Proof.
  split; [reflexivity|].
  destruct (mapModelToAsciiId_ignores_case "AirPodsMax" "AIRPODSMAX" eq_refl)
    as [Hcapitals Hsmall].
  split; [exact Hcapitals|exact Hsmall].
Defined.

(** A name with a character outside ASCII has no capitals here. *)
Example toUpperCase_outside_ascii :
  String_toUpperCase (String (ascii_of_nat 197) (String (ascii_of_nat 191) "2")) = None.
Proof. reflexivity. Qed.

(** X2. A model name in which neither "airpods" nor "beatsfitpro" occurs,
    in any case of the letters, has no art id. *)
Theorem mapModelToAsciiId_other_brand (model : string) :
  String_includes (String_toLowerCase model) "airpods" = false ->
  String_includes (String_toLowerCase model) "beatsfitpro" = false ->
  mapModelToAsciiId (Some model) = None.
Proof.
  intros Hpods Hbeats. unfold mapModelToAsciiId.
  destruct (negb (truthy_string model)); [reflexivity|].
  rewrite Hbeats.
  pose proof (fun rest => includes_false_app "airpods" rest _ Hpods) as Hrest.
  rewrite (Hrest "max" : String_includes _ "airpodsmax" = false).
  rewrite (Hrest "pro2" : String_includes _ "airpodspro2" = false).
  rewrite (Hrest "pro2usbc" : String_includes _ "airpodspro2usbc" = false).
  rewrite (Hrest "3" : String_includes _ "airpods3" = false).
  rewrite (Hrest "4" : String_includes _ "airpods4" = false).
  rewrite (Hrest "2" : String_includes _ "airpods2" = false).
  reflexivity.
Qed.

Lemma mapModelToAsciiId_other_brand_witness :
  mapModelToAsciiId (Some "Bose QC45 (BeatsFit)") = None.
Proof.
  apply (mapModelToAsciiId_other_brand "Bose QC45 (BeatsFit)"); reflexivity.
Defined.

(** X3. In [mapModelToAsciiId] the test for "airpodspro2usbc" never
    decides: a text that includes it includes "airpodspro2", so the
    condition of the Pro 2 branch is the first test alone, and the id
    "airpods-pro-2" is given only to names in which "airpodspro2" occurs. *)
Theorem usbc_test_is_subsumed (model : string) :
  (String_includes (String_toLowerCase model) "airpodspro2"
   || String_includes (String_toLowerCase model) "airpodspro2usbc")
  = String_includes (String_toLowerCase model) "airpodspro2" /\
  (mapModelToAsciiId (Some model) = Some "airpods-pro-2" ->
   String_includes (String_toLowerCase model) "airpodspro2" = true).
Proof.
  assert (Hsub : (String_includes (String_toLowerCase model) "airpodspro2"
                  || String_includes (String_toLowerCase model) "airpodspro2usbc")
                 = String_includes (String_toLowerCase model) "airpodspro2").
  { destruct (String_includes (String_toLowerCase model) "airpodspro2") eqn:Hpro;
      [reflexivity|].
    exact (includes_false_app "airpodspro2" "usbc" _ Hpro). }
  split; [exact Hsub|].
  unfold mapModelToAsciiId. rewrite Hsub.
  destruct (negb (truthy_string model)); [discriminate|].
  destruct (String_includes (String_toLowerCase model) "airpodsmax"); [discriminate|].
  destruct (String_includes (String_toLowerCase model) "beatsfitpro"); [discriminate|].
  destruct (String_includes (String_toLowerCase model) "airpodspro2"); [reflexivity|].
  destruct (String_includes (String_toLowerCase model) "airpods3"
            || String_includes (String_toLowerCase model) "airpods4"
            || String_includes (String_toLowerCase model) "airpods2"); discriminate.
Qed.

Lemma usbc_test_is_subsumed_witness :
  mapModelToAsciiId (Some "AirPodsPro2UsbC") = Some "airpods-pro-2" /\
  String_includes (String_toLowerCase "AirPodsPro2UsbC") "airpodspro2" = true.
Proof.
  split; [reflexivity|].
  exact (proj2 (usbc_test_is_subsumed "AirPodsPro2UsbC") eq_refl).
Defined.

Lemma has_version_find (vs : list AsciiVersion) (mapped : string) :
  has_version vs mapped = true ->
  exists v : AsciiVersion,
    find (fun entry => String.eqb (id entry) mapped) vs = Some v /\ id v = mapped.
Proof.
  unfold has_version. induction vs as [|v vs IH]; [discriminate|].
  cbn [existsb find]. destruct (String.eqb (id v) mapped) eqn:Hid.
  - intros _. exists v. split; [reflexivity|]. now apply String.eqb_eq.
  - exact IH.
Qed.

(** X4. The detection of the device's model changes the selected art only
    to the id [mapModelToAsciiId] gives, and only when the manifest has a
    version of that id; the effect that loads the art then finds the file
    of the first such version and fetches it. With no document, no device
    or a model without art id the selection stays as it is. *)
Theorem detected_model_has_art (vs : list AsciiVersion) (deviceModel : option string)
    (model : string) :
  (mapModelToAsciiId deviceModel = None -> detect_model vs deviceModel model = model) /\
  (detect_model vs deviceModel model <> model ->
   mapModelToAsciiId deviceModel = Some (detect_model vs deviceModel model) /\
   exists v : AsciiVersion,
     find (fun entry => String.eqb (id entry) (detect_model vs deviceModel model)) vs = Some v /\
     id v = detect_model vs deviceModel model /\
     art_request vs (detect_model vs deviceModel model) = Some ("ascii/" ++ file v)).
Proof.
  unfold detect_model. split.
  - intros ->. reflexivity.
  - destruct (mapModelToAsciiId deviceModel) as [mapped|]; [|congruence].
    destruct (truthy_string mapped) eqn:Htruthy; [|simpl; congruence].
    destruct (has_version vs mapped) eqn:Hhas; [|simpl; congruence].
    simpl. intros _. split; [reflexivity|].
    destruct (has_version_find vs mapped Hhas) as (v & Hfind & Hid).
    exists v. split; [exact Hfind|]. split; [exact Hid|].
    unfold art_request. now rewrite Htruthy, Hfind.
Qed.

Lemma detected_model_has_art_witness :
  detect_model sample_versions (Some "AirPodsMax") "airpods-pro-2" = "airpods-max" /\
  art_request sample_versions "airpods-max" = Some "ascii/airpods-max.txt".
Proof.
  split; [reflexivity|].
  assert (Hchanged : detect_model sample_versions (Some "AirPodsMax") "airpods-pro-2"
                     <> "airpods-pro-2") by (vm_compute; discriminate).
  destruct (proj2 (detected_model_has_art sample_versions (Some "AirPodsMax") "airpods-pro-2")
              Hchanged) as (_ & v & Hfind & _ & Hreq).
  injection Hfind as <-. exact Hreq.
Defined.

Example detect_model_without_version :
  detect_model sample_versions (Some "Beats Fit Pro (BeatsFitPro)") "airpods-pro-2"
  = "airpods-pro-2".
Proof. reflexivity. Qed.

Example mapModelToAsciiId_first_generation :
  mapModelToAsciiId (Some "AirPodsPro") = None /\
  mapModelToAsciiId (Some "") = None /\
  mapModelToAsciiId None = None /\
  mapModelToAsciiId (Some "AIRPODS2") = Some "airpods-4".
Proof. repeat split. Qed.

End ArtSpec.

(** ** More of the renderer: every number, and order *)

Module RendererSpec.
Import JS JSFacts App AppSpec.

(** Reads the comparisons of the context and of the goal as order facts. *)
Ltac order_facts :=
  repeat match goal with
         | H : Qle_bool _ _ = true |- _ => apply Qle_bool_iff in H
         | H : Qltb _ _ = true |- _ => apply Qltb_true in H
         | H : Qltb _ _ = false |- _ => apply Qltb_false in H
         | |- Qle_bool _ _ = true => apply Qle_bool_iff
         end.

Ltac split_Qltb :=
  repeat match goal with
         | |- context [Qltb ?p ?q] => destruct (Qltb p q) eqn:?
         end.

Lemma le_refl (a : number) : a <> NaN -> le a a = true.
Proof.
  destruct a as [| | |q]; intros Hnan; try reflexivity; [contradiction|].
  simpl. apply Qle_bool_iff. apply Qle_refl.
Qed.

Lemma le_not_NaN (a b : number) : le a b = true -> a <> NaN /\ b <> NaN.
Proof. destruct a, b; simpl; intros Hle; split; discriminate. Qed.

Lemma Math_min_mono (a a' b b' : number) :
  le a a' = true -> le b b' = true -> le (Math_min a b) (Math_min a' b') = true.
Proof.
  destruct a, a', b, b'; simpl; intros Ha Hb; try discriminate; try reflexivity;
    split_Qltb; simpl; try reflexivity; order_facts; lra.
Qed.

Lemma Math_max_mono (a a' b b' : number) :
  le a a' = true -> le b b' = true -> le (Math_max a b) (Math_max a' b') = true.
Proof.
  destruct a, a', b, b'; simpl; intros Ha Hb; try discriminate; try reflexivity;
    split_Qltb; simpl; try reflexivity; order_facts; lra.
Qed.

Section Order.
Context `{Rounding}.

Lemma rnd_nonneg (q : Q) : (0 <= q)%Q -> (0 <= rnd q)%Q.
Proof.
  intros Hq. rewrite <- (rnd_int 0) by (simpl; lia). now apply rnd_mono.
Qed.

(** The clamp keeps the order. *)
Lemma clamp_mono (a b : number) (ca cb : Q) :
  le a b = true -> clamp a = Fin ca -> clamp b = Fin cb -> (ca <= cb)%Q.
Proof.
  intros Hle Ha Hb.
  destruct (le_not_NaN a b Hle) as [Hna Hnb].
  destruct (clamp_range a Hna) as (ca' & Ha' & Hra & _).
  destruct (clamp_range b Hnb) as (cb' & Hb' & Hrb & _).
  rewrite Ha in Ha'. rewrite Hb in Hb'. injection Ha' as <-. injection Hb' as <-.
  destruct a as [| | |p], b as [| | |q]; try discriminate.
  - injection Ha as <-. change (inject_Z 0) with 0%Q. lra.
  - injection Ha as <-. change (inject_Z 0) with 0%Q. lra.
  - injection Ha as <-. change (inject_Z 0) with 0%Q. lra.
  - injection Hb as <-. change (inject_Z 100) with 100%Q. lra.
  - injection Hb as <-. change (inject_Z 100) with 100%Q. lra.
  - simpl in Hle. rewrite clamp_Fin in Ha, Hb.
    revert Ha Hb. unfold of_Z.
    change (inject_Z 100) with 100%Q. change (inject_Z 0) with 0%Q.
    split_Qltb; intros [= <-] [= <-]; order_facts; lra.
Qed.

Lemma cells_mono (ca cb : Q) : (ca <= cb)%Q -> (cells ca <= cells cb)%Z.
Proof.
  intros Hle. unfold cells. apply Qfloor_resp_le.
  apply Qplus_le_compat; [|apply Qle_refl].
  apply rnd_mono. unfold Qdiv. apply Qmult_le_compat_r; [exact Hle|discriminate].
Qed.

(** The rounded product of a length and a literal that is not negative is
    not negative. *)
Lemma product_nonneg (z : Z) (c : Q) :
  (0 <= z)%Z -> (0 <= c)%Q -> (0 <= rnd (inject_Z z * rnd c))%Q.
Proof.
  intros Hz Hc. apply rnd_nonneg. apply Qmult_le_0_compat; [|now apply rnd_nonneg].
  change 0%Q with (inject_Z 0). now rewrite <- Zle_Qle.
Qed.

(** A candidate size, the usable extent over the product, grows with the
    extent. *)
Lemma candidate_mono (lo : Z) (s1 s2 p : Q) :
  (0 < lo)%Z -> (s1 <= s2)%Q -> (0 <= p)%Q ->
  le (div (Math_max (of_Z lo) (Fin s1)) (Fin p))
     (div (Math_max (of_Z lo) (Fin s2)) (Fin p)) = true.
Proof.
  intros Hlo Hs Hp.
  assert (Hpos : (0 < inject_Z lo)%Q).
  { change 0%Q with (inject_Z 0). now rewrite <- Zlt_Qlt. }
  assert (Hmax : forall s, exists u, Math_max (of_Z lo) (Fin s) = Fin u /\
                   (inject_Z lo <= u)%Q /\
                   (u == if Qltb (inject_Z lo) s then s else inject_Z lo)%Q).
  { intros s. unfold of_Z, Math_max. destruct (Qltb (inject_Z lo) s) eqn:Hc.
    - exists s. order_facts. split; [reflexivity|]. split; [lra|reflexivity].
    - exists (inject_Z lo). split; [reflexivity|]. split; [lra|reflexivity]. }
  destruct (Hmax s1) as (u1 & -> & Hu1 & Hv1).
  destruct (Hmax s2) as (u2 & -> & Hu2 & Hv2).
  assert (Hu : (u1 <= u2)%Q).
  { rewrite Hv1, Hv2. split_Qltb; order_facts; lra. }
  unfold div. destruct (Qeq_bool p 0) eqn:Hzero.
  - rewrite !Qeq_bool_false by lra.
    destruct (Qltb u1 0) eqn:H1; [order_facts; lra|].
    destruct (Qltb u2 0) eqn:H2; [order_facts; lra|]. reflexivity.
  - simpl. apply Qle_bool_iff. apply rnd_mono.
    assert (Hne : ~ (p == 0)%Q).
    { intros Heq. apply Qeq_bool_iff in Heq. congruence. }
    unfold Qdiv. apply Qmult_le_compat_r; [exact Hu|].
    apply Qinv_le_0_compat. exact Hp.
Qed.

(** A candidate size is a number whenever the extent is. *)
Lemma candidate_not_NaN (lo : Z) (size : number) (p : Q) :
  (0 < lo)%Z -> size <> NaN -> div (Math_max (of_Z lo) size) (Fin p) <> NaN.
Proof.
  intros Hlo Hsize.
  assert (Hpos : (0 < inject_Z lo)%Q).
  { change 0%Q with (inject_Z 0). now rewrite <- Zlt_Qlt. }
  destruct size as [| | |s]; [contradiction| | |].
  - apply div_positive_not_NaN; [exact Hpos|discriminate].
  - simpl. destruct (Qltb p 0); discriminate.
  - apply div_usable_not_NaN; [exact Hlo|discriminate..].
Qed.

End Order.

(** X5. [batteryBar] never throws, whatever the number: for NaN it returns
    the two brackets with nothing between, and for every other number,
    the infinities included, a bar of ten cells, twelve characters in all. *)
Theorem batteryBar_never_throws `{Rounding} (level : number) :
  match level with
  | NaN => batteryBar level = Ok "[]"
  | _ => exists filled : nat,
           (filled <= 10)%nat /\
           batteryBar level = Ok (bar filled) /\
           String.length (bar filled) = 12%nat
  end.
Proof.
  assert (Hbar : level <> NaN ->
                 exists filled : nat,
                   (filled <= 10)%nat /\
                   batteryBar level = Ok (bar filled) /\
                   String.length (bar filled) = 12%nat).
  { intros Hnan.
    destruct (clamp_range level Hnan) as (c & Hclamp & Hc & _).
    pose proof (cells_range c Hc) as Hcells.
    exists (Z.to_nat (cells c)).
    assert (Hle : (Z.to_nat (cells c) <= 10)%nat) by lia.
    split; [exact Hle|]. split; [now apply batteryBar_clamped|now apply length_bar]. }
  destruct level; [reflexivity|apply Hbar; discriminate..].
Qed.

(** X6. The bar follows the level: of two numbers, the greater never has
    fewer filled cells. *)
Theorem batteryBar_monotone `{Rounding} (lower higher : number) :
  le lower higher = true ->
  exists filled filled' : nat,
    batteryBar lower = Ok (bar filled) /\
    batteryBar higher = Ok (bar filled') /\
    (filled <= filled' <= 10)%nat.
Proof.
  intros Hle.
  destruct (le_not_NaN lower higher Hle) as [Hn Hn'].
  destruct (clamp_range lower Hn) as (c & Hclamp & Hc & _).
  destruct (clamp_range higher Hn') as (c' & Hclamp' & Hc' & _).
  pose proof (clamp_mono lower higher c c' Hle Hclamp Hclamp') as Hcc.
  pose proof (cells_mono c c' Hcc) as Hcells.
  pose proof (cells_range c Hc). pose proof (cells_range c' Hc').
  exists (Z.to_nat (cells c)), (Z.to_nat (cells c')).
  split; [now apply batteryBar_clamped|]. split; [now apply batteryBar_clamped|]. lia.
Qed.

Lemma batteryBar_monotone_witness :
  exists filled filled' : nat,
    batteryBar (H := exact_rounding) (of_Z 34) = Ok (bar filled) /\
    batteryBar (H := exact_rounding) PosInfinity = Ok (bar filled') /\
    (filled <= filled' <= 10)%nat.
Proof.
  exact (batteryBar_monotone (H := exact_rounding) (of_Z 34) PosInfinity eq_refl).
Defined.

(** The two candidate sizes of [asciiFontSizePx]. *)
Lemma asciiFontSizePx_candidates `{Rounding} (ascii : string) (width height : number)
    (headerRef_current : option Z) :
  exists (longest : Z) (hh : Z),
    (1 <= longest)%Z /\
    asciiFontSizePx ascii width height headerRef_current =
      Math_max (Fin (9 # 2))
        (Math_min (of_Z 12)
           (Math_min
              (div (Math_max (of_Z 120) (sub width (of_Z 40)))
                   (Fin (rnd (inject_Z longest * rnd (62 # 100)))))
              (div (Math_max (of_Z 60) (sub (sub height (of_Z hh)) (of_Z 20)))
                   (Fin (rnd (inject_Z (Z.of_nat (List.length (String_split_lines ascii)))
                              * rnd (95 # 100))))))).
Proof.
  destruct (longest_line_integer (String_split_lines ascii) 1) as (z & Hz & Hlong).
  exists z, (match headerRef_current with Some h => h | None => 35%Z end).
  split; [exact Hz|].
  unfold asciiFontSizePx. rewrite Hlong.
  destruct headerRef_current; reflexivity.
Qed.

(** X7. [asciiFontSizePx] on every number: a width or a height that is
    NaN gives NaN; any other width and height, the infinities included,
    give a number between 4.5 and 12. *)
Theorem asciiFontSizePx_NaN_only_from_NaN `{Rounding} (ascii : string) (width height : number)
    (headerRef_current : option Z) :
  (width = NaN \/ height = NaN ->
   asciiFontSizePx ascii width height headerRef_current = NaN) /\
  (width <> NaN -> height <> NaN ->
   asciiFontSizePx ascii width height headerRef_current <> NaN /\
   le (Fin (9 # 2)) (asciiFontSizePx ascii width height headerRef_current) = true /\
   le (asciiFontSizePx ascii width height headerRef_current) (of_Z 12) = true).
Proof.
  destruct (asciiFontSizePx_candidates ascii width height headerRef_current)
    as (z & hh & Hz & ->).
  split.
  - intros [-> | ->]; [reflexivity|].
    simpl. destruct (div _ _); reflexivity.
  - intros Hw Hh.
    assert (Hclamped :
      let px := Math_max (Fin (9 # 2))
        (Math_min (of_Z 12)
           (Math_min
              (div (Math_max (of_Z 120) (sub width (of_Z 40)))
                   (Fin (rnd (inject_Z z * rnd (62 # 100)))))
              (div (Math_max (of_Z 60) (sub (sub height (of_Z hh)) (of_Z 20)))
                   (Fin (rnd (inject_Z (Z.of_nat (List.length (String_split_lines ascii)))
                              * rnd (95 # 100))))))) in
      le (Fin (9 # 2)) px = true /\ le px (of_Z 12) = true).
    { apply font_size_clamped.
      assert (Hcw : div (Math_max (of_Z 120) (sub width (of_Z 40)))
                      (Fin (rnd (inject_Z z * rnd (62 # 100)))) <> NaN).
      { apply candidate_not_NaN; [lia|]. destruct width; [contradiction|discriminate..]. }
      assert (Hch : div (Math_max (of_Z 60) (sub (sub height (of_Z hh)) (of_Z 20)))
                      (Fin (rnd (inject_Z (Z.of_nat (List.length (String_split_lines ascii)))
                                 * rnd (95 # 100)))) <> NaN).
      { apply candidate_not_NaN; [lia|]. destruct height; [contradiction|discriminate..]. }
      revert Hcw Hch.
      generalize (div (Math_max (of_Z 120) (sub width (of_Z 40)))
                    (Fin (rnd (inject_Z z * rnd (62 # 100))))).
      generalize (div (Math_max (of_Z 60) (sub (sub height (of_Z hh)) (of_Z 20)))
                    (Fin (rnd (inject_Z (Z.of_nat (List.length (String_split_lines ascii)))
                               * rnd (95 # 100))))).
      intros b a Ha Hb.
      destruct a as [| | |p], b as [| | |q]; try contradiction; try discriminate.
      unfold Math_min. destruct (Qltb q p); discriminate. }
    cbv zeta in Hclamped. split; [|exact Hclamped].
    destruct Hclamped as [Hlow _]. intros Heq. rewrite Heq in Hlow. discriminate.
Qed.

Lemma asciiFontSizePx_NaN_only_from_NaN_witness :
  asciiFontSizePx (H := exact_rounding) "art" (of_Z 420) NaN None = NaN /\
  le (asciiFontSizePx (H := exact_rounding) "art" PosInfinity (of_Z 260) None) (of_Z 12) = true.
Proof.
  split.
  - exact (proj1 (asciiFontSizePx_NaN_only_from_NaN (H := exact_rounding)
                    "art" (of_Z 420) NaN None) (or_intror eq_refl)).
  - refine (proj2 (proj2 (proj2 (asciiFontSizePx_NaN_only_from_NaN (H := exact_rounding)
                                   "art" PosInfinity (of_Z 260) None) _ _))); discriminate.
Defined.

(** X8. A larger device section never gets a smaller font: for one text and
    one header, [asciiFontSizePx] does not decrease when the width grows,
    nor when the height grows. *)
Theorem asciiFontSizePx_monotone `{Rounding} (ascii : string) (width width' height height' : Q)
    (headerRef_current : option Z) :
  (width <= width')%Q -> (height <= height')%Q ->
  le (asciiFontSizePx ascii (Fin width) (Fin height) headerRef_current)
     (asciiFontSizePx ascii (Fin width') (Fin height') headerRef_current) = true.
Proof.
  intros Hw Hh.
  destruct (longest_line_integer (String_split_lines ascii) 1) as (z & Hz & Hlong).
  unfold asciiFontSizePx. rewrite Hlong.
  apply Math_max_mono; [reflexivity|].
  apply Math_min_mono; [reflexivity|].
  apply Math_min_mono.
  - apply candidate_mono; [lia| |].
    + apply rnd_mono. lra.
    + apply product_nonneg; [lia|discriminate].
  - destruct headerRef_current as [hh|]; apply candidate_mono; try lia.
    + apply rnd_mono. apply Qplus_le_compat; [|apply Qle_refl].
      apply rnd_mono. lra.
    + apply product_nonneg; [lia|discriminate].
    + apply rnd_mono. apply Qplus_le_compat; [|apply Qle_refl].
      apply rnd_mono. lra.
    + apply product_nonneg; [lia|discriminate].
Qed.

Lemma asciiFontSizePx_monotone_witness :
  le (asciiFontSizePx (H := grid_rounding) (string_rep "x" 80) (Fin 300) (Fin 200) None)
     (asciiFontSizePx (H := grid_rounding) (string_rep "x" 80) (Fin 420) (Fin 260) None) = true.
Proof.
  apply (asciiFontSizePx_monotone (H := grid_rounding)); discriminate.
Defined.

End RendererSpec.

(** ** The main process over its events *)

Module ShellSpec.
Import JS Main Shell.

(** What the backend part of [sound] says of a state of [Main]. *)
Definition tracked (env : environment) (st : state) : Prop :=
  (forall h p, processes st !! h = Some p ->
     (h < spawned st)%nat /\ launched p = resolveBackendCommand env) /\
  (forall h, backendProcess st = Some h -> held env st h).

Lemma initial_tracked (env : environment) : tracked env initial.
Proof.
  split.
  - intros h p Hp. simpl in Hp. rewrite lookup_empty in Hp. discriminate.
  - intros h Hh. discriminate.
Qed.

Lemma stopBackend_tracked (env : environment) (st : state) :
  tracked env st -> tracked env (stopBackend st).
Proof.
  intros [Hprocs Hheld]. split.
  - intros h p Hlook.
    destruct (MainSpec.stopBackend_clears st) as [_ ->].
    destruct (backendProcess st) as [handle|] eqn:Hh.
    + destruct (decide (h = handle)) as [->|Hne].
      * destruct (processes st !! handle) as [q|] eqn:Hq.
        -- rewrite (MainSpec.stopBackend_signals st handle q Hh Hq) in Hlook.
           injection Hlook as <-. exact (Hprocs handle q Hq).
        -- unfold stopBackend, kill in Hlook. rewrite Hh, Hq in Hlook.
           simpl in Hlook. congruence.
      * rewrite (MainSpec.stopBackend_other st handle h Hh Hne) in Hlook.
        now apply Hprocs.
    + unfold stopBackend in Hlook. rewrite Hh in Hlook. now apply Hprocs.
  - intros h Hh. destruct (MainSpec.stopBackend_clears st) as [Hnone _]. congruence.
Qed.

Lemma startBackend_tracked (env : environment) (st st' : state) :
  tracked env st -> startBackend env st = Ok st' -> tracked env st'.
Proof.
  intros [Hprocs Hheld] Hstart.
  destruct (backendProcess st) as [handle|] eqn:Hh.
  - rewrite (MainSpec.startBackend_holds env st handle Hh) in Hstart.
    injection Hstart as <-. split; [exact Hprocs|].
    intros h Hset. apply Hheld. congruence.
  - pose proof (MainSpec.startBackend_outcome env st Hh) as Hout.
    destruct (launches env (spawned st) (resolveBackendCommand env)) as [|code|code] eqn:Hhost;
      rewrite Hout in Hstart; [| |discriminate]; injection Hstart as <-.
    + split.
      * intros h p Hlook. simpl in Hlook |- *.
        destruct (decide (h = spawned st)) as [->|Hne].
        -- rewrite lookup_insert_eq in Hlook. injection Hlook as <-.
           split; [lia|reflexivity].
        -- rewrite lookup_insert_ne in Hlook by congruence.
           destruct (Hprocs h p Hlook) as [Hlt Hcmd]. split; [lia|exact Hcmd].
      * intros h Hset. simpl in Hset. injection Hset as <-.
        unfold held. simpl. rewrite Hhost. split; [lia|apply lookup_insert_eq].
    + split.
      * intros h p Hlook. simpl in Hlook |- *.
        destruct (Hprocs h p Hlook) as [Hlt Hcmd]. split; [lia|exact Hcmd].
      * intros h Hset. simpl in Hset. injection Hset as <-.
        unfold held. simpl. rewrite Hhost. split; [lia|].
        destruct (processes st !! spawned st) as [p|] eqn:Hp; [|reflexivity].
        destruct (Hprocs _ _ Hp) as [Hlt _]. lia.
Qed.

Lemma on_exit_tracked (env : environment) (handle : nat) (code : option Z) (st : state) :
  tracked env st -> tracked env (on_exit handle code st).
Proof.
  intros [Hprocs _]. split.
  - intros h p Hlook. simpl in Hlook.
    destruct (decide (h = handle)) as [->|Hne].
    + rewrite lookup_delete_eq in Hlook. discriminate.
    + rewrite lookup_delete_ne in Hlook by congruence. now apply Hprocs.
  - intros h Hh. discriminate.
Qed.

Lemma on_restart_tracked (env : environment) (fs : gmap path file) (sh : shell) :
  tracked env (backend sh) -> tracked env (backend (on_restart env fs sh)).
Proof.
  intros Htracked. pose proof (stopBackend_tracked env _ Htracked) as Hstopped.
  unfold on_restart, backend_restart. cbn [backend with_backend].
  destruct (startBackend env (stopBackend (backend sh))) as [st|e] eqn:Hstart.
  - simpl. exact (startBackend_tracked env _ _ Hstopped Hstart).
  - simpl. exact Hstopped.
Qed.

Lemma sound_tracked (env : environment) (sh : shell) :
  sound env sh -> tracked env (backend sh).
Proof. intros (Ha & Hb & _). split; assumption. Qed.

Lemma launching_sound (env : environment) : sound env launching.
Proof.
  destruct (initial_tracked env) as [Ha Hb].
  split; [exact Ha|]. split; [exact Hb|]. split; [reflexivity|].
  split; [reflexivity|]. intros _ Htray. now contradiction Htray.
Qed.

(** Every event keeps the state sound. *)
Lemma step_sound (env : environment) (fs : gmap path file) (e : event) (sh sh' : shell) :
  step env fs e sh = Some sh' -> sound env sh -> sound env sh'.
Proof.
  intros Hstep Hsound.
  pose proof (sound_tracked env sh Hsound) as Htracked.
  destruct Hsound as (_ & _ & Htray & Hquit & Hwin).
  unfold step in Hstep.
  destruct (ended sh) eqn:Hended; [discriminate|].
  specialize (Hquit eq_refl). specialize (Hwin eq_refl).
  destruct e as [| | | | |handle code]; destruct (tray sh) as [icon|] eqn:Hicon;
    try discriminate.
  - unfold on_ready in Hstep.
    destruct (startBackend env (backend sh)) as [st|e] eqn:Hstart; [|discriminate].
    simpl in Hstep. injection Hstep as <-.
    destruct (startBackend_tracked env _ _ Htracked Hstart) as [Ha Hb].
    split; [exact Ha|]. split; [exact Hb|]. split; [discriminate|].
    split; [intros _; simpl; first [exact Hquit|reflexivity]|]. intros _ _. eexists. split; reflexivity.
  - destruct (Hwin ltac:(discriminate)) as (w & Hw & Hd).
    unfold open_window in Hstep. rewrite Hw, Hd in Hstep. injection Hstep as <-.
    destruct Htracked as [Ha Hb].
    split; [exact Ha|]. split; [exact Hb|]. split; [simpl; congruence|].
    split; [intros _; simpl; first [exact Hquit|reflexivity]|]. intros _ _. eexists. split; reflexivity.
  - destruct (Hwin ltac:(discriminate)) as (w & Hw & Hd).
    rewrite Hw, Hd in Hstep. injection Hstep as <-.
    unfold on_close. rewrite Hw, Hquit.
    destruct Htracked as [Ha Hb].
    split; [exact Ha|]. split; [exact Hb|]. split; [simpl; congruence|].
    split; [intros _; simpl; first [exact Hquit|reflexivity]|]. intros _ _. eexists. split; [reflexivity|exact Hd].
  - injection Hstep as <-.
    destruct (stopBackend_tracked env _ Htracked) as [Ha Hb].
    unfold on_tray_quit, on_before_quit, on_close. simpl.
    destruct (mainWindow sh); simpl;
      (split; [exact Ha|]; split; [exact Hb|];
       split; [intros _; apply MainSpec.stopBackend_clears|]; split; discriminate).
  - injection Hstep as <-.
    destruct (on_restart_tracked env fs sh Htracked) as [Ha Hb].
    split; [exact Ha|]. split; [exact Hb|].
    split; [unfold on_restart; cbn [tray with_backend]; congruence|].
    split; [intros _; unfold on_restart; cbn [isQuitting with_backend]; exact Hquit|].
    intros _ _. unfold on_restart. cbn [mainWindow with_backend]. apply Hwin. discriminate.
  - destruct (processes (backend sh) !! handle); [|discriminate].
    injection Hstep as <-.
    destruct (on_exit_tracked env handle code _ Htracked) as [Ha Hb].
    split; [exact Ha|]. split; [exact Hb|]. split; [simpl; congruence|].
    split; [intros _; simpl; first [exact Hquit|reflexivity]|]. intros _ _. simpl. apply Hwin. discriminate.
Qed.

Lemma run_sound (env : environment) (fs : gmap path file) (events : list event)
    (sh sh' : shell) :
  run env fs events sh = Some sh' -> sound env sh -> sound env sh'.
Proof.
  revert sh. induction events as [|e events IH]; intros sh Hrun Hsound.
  - injection Hrun as <-. exact Hsound.
  - simpl in Hrun. destruct (step env fs e sh) as [mid|] eqn:Hstep; [|discriminate].
    apply (IH mid Hrun). now apply (step_sound env fs e sh).
Qed.

Lemma step_keeps_tray (env : environment) (fs : gmap path file) (e : event)
    (sh sh' : shell) :
  step env fs e sh = Some sh' -> tray sh' <> None.
Proof.
  unfold step. destruct (ended sh); [discriminate|].
  destruct e as [| | | | |handle code]; destruct (tray sh) as [icon|] eqn:Hicon;
    try discriminate.
  - unfold on_ready. destruct (startBackend env (backend sh)); [|discriminate].
    simpl. intros [= <-]. discriminate.
  - unfold open_window. destruct (mainWindow sh) as [w|]; [destruct (destroyed w)|];
      try discriminate; intros [= <-]; simpl; congruence.
  - destruct (mainWindow sh) as [w|] eqn:Hw; [destruct (destroyed w)|]; try discriminate.
    intros [= <-]. unfold on_close. rewrite Hw. simpl. congruence.
  - intros [= <-]. unfold on_tray_quit, on_before_quit, on_close. simpl.
    destruct (mainWindow sh); simpl; congruence.
  - intros [= <-]. unfold on_restart. cbn [tray with_backend]. congruence.
  - destruct (processes (backend sh) !! handle); [|discriminate].
    intros [= <-]. simpl. congruence.
Qed.

Lemma run_keeps_tray (env : environment) (fs : gmap path file) (events : list event)
    (sh sh' : shell) :
  run env fs events sh = Some sh' -> tray sh <> None -> tray sh' <> None.
Proof.
  revert sh. induction events as [|e events IH]; intros sh Hrun Htray.
  - injection Hrun as <-. exact Htray.
  - simpl in Hrun. destruct (step env fs e sh) as [mid|] eqn:Hstep; [|discriminate].
    apply (IH mid Hrun). now apply (step_keeps_tray env fs e sh).
Qed.

(** X9. However the main process got where it is (ready, windows opened
    and closed, restarts returned or rejected, backend processes gone),
    when [status()] answers that the backend runs, [backendProcess] names
    a handle that [spawn] gave out, and what that says of the host is what
    the host did with that spawn: where it started a process, the process
    is still a process of the host, launched by [resolveBackendCommand]
    and not sent the termination signal; where it could not (the command
    is missing), there is no process, and the answer is wrong. *)
Theorem status_running_means_alive (JSON_parse : string -> result json)
    (env : environment) (fs : gmap path file) (events : list event) (sh : shell) :
  run env fs events launching = Some sh ->
  forall st' : state,
    Preload.call JSON_parse "backend" "status" env fs (backend sh) = Ok (Status true, st') ->
    st' = backend sh /\
    exists handle : nat,
      backendProcess (backend sh) = Some handle /\
      (handle < spawned (backend sh))%nat /\
      (started env handle -> backend_runs env (backend sh) handle) /\
      (forall code, launches env handle (resolveBackendCommand env) = Refused code ->
         processes (backend sh) !! handle = None) /\
      (forall code, launches env handle (resolveBackendCommand env) <> Thrown code).
Proof.
  intros Hrun st' Hstatus.
  destruct (run_sound env fs events _ _ Hrun (launching_sound env)) as (_ & Hb & _).
  change (backend_status env fs (backend sh) = Ok (Status true, st')) in Hstatus.
  unfold backend_status in Hstatus. injection Hstatus as Hset <-.
  split; [reflexivity|].
  apply bool_decide_eq_true in Hset. destruct Hset as [handle Hh].
  exists handle. split; [exact Hh|].
  destruct (Hb handle Hh) as [Hlt Hheld]. split; [exact Hlt|].
  unfold started.
  destruct (launches env handle (resolveBackendCommand env)) as [|code|code].
  - split; [intros _; split; assumption|]. split; intros code; discriminate.
  - split; [discriminate|]. split; [intros _ _; exact Hheld|intros code'; discriminate].
  - contradiction.
Qed.

Lemma status_running_means_alive_witness :
  (exists sh : shell,
     run sample_environment ∅ [ Ready; Close; Restart; Open ] launching = Some sh /\
     backend_runs sample_environment (backend sh) 1) /\
  (exists sh : shell,
     run sample_host_without_backend ∅ [ Ready; Restart ] launching = Some sh /\
     backendProcess (backend sh) = Some 1%nat /\
     processes (backend sh) !! 1%nat = None).
Proof.
  split.
  - eexists. split; [reflexivity|].
    destruct (proj2 (status_running_means_alive Keywords.parse sample_environment ∅
                       [ Ready; Close; Restart; Open ] _ eq_refl _ eq_refl))
      as (handle & Hh & _ & Hruns & _).
    injection Hh as <-. exact (Hruns eq_refl).
  - eexists. split; [reflexivity|].
    destruct (proj2 (status_running_means_alive Keywords.parse sample_host_without_backend ∅
                       [ Ready; Restart ] _ eq_refl _ eq_refl))
      as (handle & Hh & _ & _ & Hnone & _).
    split; [reflexivity|].
    injection Hh as <-. exact (Hnone "ENOENT" eq_refl).
Defined.

(** X10. The window outlives its closing. From the moment the application
    is ready (the callback of [whenReady] has returned) until it ends,
    whatever happened in between, there is a window and it is not
    destroyed (a close only hides it), and the handler
    of the tray's "Open WinPods", of the tray's double click and of the
    activation does not throw: it leaves that window shown and focused,
    with the page it had, and the backend as it was. *)
Theorem window_outlives_close (env : environment) (fs : gmap path file)
    (events : list event) (sh : shell) :
  run env fs (Ready :: events) launching = Some sh ->
  ended sh = false ->
  exists (w : window) (sh' : shell),
    mainWindow sh = Some w /\
    destroyed w = false /\
    open_window env sh = Ok sh' /\
    mainWindow sh' = Some {| content := content w; visible := true; focused := true;
                             destroyed := false |} /\
    backend sh' = backend sh.
Proof.
  intros Hrun Hended.
  pose proof (run_sound env fs _ _ _ Hrun (launching_sound env)) as (_ & _ & _ & _ & Hwin).
  assert (Htray : tray sh <> None).
  { cbn [run] in Hrun.
    destruct (step env fs Ready launching) as [ready|] eqn:Hready; [|discriminate].
    apply (run_keeps_tray env fs events _ _ Hrun).
    exact (step_keeps_tray env fs Ready _ _ Hready). }
  destruct (Hwin Hended Htray) as (w & Hw & Hd).
  exists w. eexists. split; [exact Hw|]. split; [exact Hd|].
  unfold open_window. rewrite Hw, Hd. split; [reflexivity|]. split; reflexivity.
Qed.

Lemma window_outlives_close_witness :
  exists (w : window) (sh sh' : shell),
    run sample_environment ∅ [ Ready; Close; Close ] launching = Some sh /\
    mainWindow sh = Some w /\
    visible w = false /\
    open_window sample_environment sh = Ok sh' /\
    mainWindow sh' = Some {| content := content w; visible := true; focused := true;
                             destroyed := false |}.
Proof.
  destruct (window_outlives_close sample_environment ∅ [ Close; Close ] _ eq_refl eq_refl)
    as (w & sh' & Hw & _ & Hopen & Hshown & _).
  exists w. eexists. exists sh'.
  split; [reflexivity|]. split; [exact Hw|]. split; [|split; [exact Hopen|exact Hshown]].
  injection Hw as <-. reflexivity.
Defined.




End ShellSpec.

(** ** The poll of the backend, from the component to the main process *)

Module PollingSpec.
Import JS Main Preload Polling.

Lemma read_state_returns (JSON_parse : string -> result json)
    (env : environment) (fs : gmap path file) :
  exists doc, read_state JSON_parse env fs = Ok doc.
Proof.
  destruct (fs !! resolveStatePath env) as [[raw|code]|] eqn:Hfile.
  - rewrite (MainSpec.read_state_present _ _ _ _ Hfile).
    destruct (JSON_parse raw) as [doc|e]; eauto.
  - unfold read_state, existsSync, readFileSync. rewrite Hfile.
    rewrite bool_decide_true by eauto. simpl. eauto.
  - rewrite MainSpec.read_state_absent by exact Hfile. eauto.
Qed.

Lemma invoke_status (JSON_parse : string -> result json)
    (env : environment) (fs : gmap path file) (st : state) :
  invoke JSON_parse "backend:status" env fs st =
    (Ok (JObject [ ("running", JBool (bool_decide (is_Some (backendProcess st)))) ]), st).
Proof. reflexivity. Qed.

Lemma invoke_data (JSON_parse : string -> result json)
    (env : environment) (fs : gmap path file) (st : state) (doc : json) :
  read_state JSON_parse env fs = Ok doc ->
  invoke JSON_parse "backend:data" env fs st = (Ok doc, st).
Proof.
  intros Hdoc. unfold invoke, ipcRenderer_invoke.
  change (ipcMain_handlers JSON_parse !! "backend:data") with (Some (backend_data JSON_parse)).
  unfold backend_data. rewrite Hdoc. reflexivity.
Qed.

(** X12. A poll of the component through the bridge of the preload script
    never rejects and leaves the main process as it was: when the
    component is mounted it shows the backend as running exactly when the
    main process holds a handle of it, and as data what the
    ["backend:data"] handler read of the state file; when it has been
    unmounted, and when the page runs without the bridge, it sets
    nothing. *)
Theorem poll_shows_main_process (JSON_parse : string -> result json)
    (env : environment) (fs : gmap path file) (st : state) (r : renderer) :
  (exists doc,
     read_state JSON_parse env fs = Ok doc /\
     poll JSON_parse (mainWorld !! "backend") true env fs st r =
       (Ok {| backendRunning := bool_decide (is_Some (backendProcess st));
              backendData := doc |}, st)) /\
  poll JSON_parse (mainWorld !! "backend") false env fs st r = (Ok r, st) /\
  poll JSON_parse None true env fs st r = (Ok r, st).
Proof.
  destruct (read_state_returns JSON_parse env fs) as [doc Hdoc].
  change (mainWorld !! "backend") with (Some backend).
  split; [exists doc; split; [exact Hdoc|]|split; [|reflexivity]].
  - unfold poll.
    change (Some backend ≫= (fun api => api !! "status")) with (Some "backend:status").
    change (Some backend ≫= (fun api => api !! "data")) with (Some "backend:data").
    cbv beta iota. rewrite invoke_status. cbv beta iota zeta.
    rewrite (invoke_data _ _ _ _ _ Hdoc). reflexivity.
  - unfold poll.
    change (Some backend ≫= (fun api => api !! "status")) with (Some "backend:status").
    change (Some backend ≫= (fun api => api !! "data")) with (Some "backend:data").
    cbv beta iota. rewrite invoke_status. cbv beta iota zeta.
    rewrite (invoke_data _ _ _ _ _ Hdoc). reflexivity.
Qed.

End PollingSpec.

(** ** The script that stages the backend binary *)

Module StageSpec.
Import JS Main Stage.

(** A successful walk keeps every entry it found. *)
Lemma mkdirSync_recursive_keeps (segments : list string) :
  forall (base : path) (fs fs' : gmap path entry),
    mkdirSync_recursive base segments fs = Ok fs' ->
    forall q e, fs !! q = Some e -> fs' !! q = Some e.
Proof.
  induction segments as [|segment rest IH]; intros base fs fs' Hrun q e Hq.
  - simpl in Hrun. congruence.
  - simpl in Hrun.
    destruct (fs !! (base ++ [segment])%list) as [[content|]|] eqn:Hdir.
    + discriminate.
    + exact (IH _ _ _ Hrun q e Hq).
    + apply (IH _ _ _ Hrun q e).
      rewrite lookup_insert_ne; [exact Hq|].
      intros <-. unfold path in *. congruence.
Qed.

(** What it adds is a directory on its way. *)
Lemma mkdirSync_recursive_adds (segments : list string) :
  forall (base : path) (fs fs' : gmap path entry),
    mkdirSync_recursive base segments fs = Ok fs' ->
    forall q, fs !! q = None ->
      fs' !! q = None \/
      (fs' !! q = Some Directory /\ q `prefix_of` (base ++ segments)%list).
Proof.
  induction segments as [|segment rest IH]; intros base fs fs' Hrun q Hq.
  - simpl in Hrun. left. congruence.
  - simpl in Hrun.
    assert (Hway : forall p : path,
              p `prefix_of` ((base ++ [segment]) ++ rest)%list ->
              p `prefix_of` (base ++ segment :: rest)%list).
    { intros p. now rewrite <- app_assoc. }
    destruct (fs !! (base ++ [segment])%list) as [[content|]|] eqn:Hdir.
    + discriminate.
    + destruct (IH _ _ _ Hrun q Hq) as [Hnone|[Hmade Hpre]]; [now left|right; auto].
    + destruct (decide (q = (base ++ [segment])%list)) as [->|Hne].
      * right. split.
        -- apply (mkdirSync_recursive_keeps _ _ _ _ Hrun). apply lookup_insert_eq.
        -- apply Hway. now apply prefix_app_r.
      * assert (Hq' : <[(base ++ [segment])%list := Directory]> fs !! q = None)
          by (rewrite lookup_insert_ne; [exact Hq|congruence]).
        destruct (IH _ _ _ Hrun q Hq') as [Hnone|[Hmade Hpre]]; [now left|right; auto].
Qed.

(** Every directory on its way is one after it. *)
Lemma mkdirSync_recursive_makes (segments : list string) :
  forall (base : path) (fs fs' : gmap path entry),
    mkdirSync_recursive base segments fs = Ok fs' ->
    forall k, (0 < k <= length segments)%nat ->
      fs' !! (base ++ take k segments)%list = Some Directory.
Proof.
  induction segments as [|segment rest IH]; intros base fs fs' Hrun k Hk.
  - simpl in Hk. lia.
  - simpl in Hrun.
    assert (Hhere : forall fs0 : gmap path entry,
              fs0 !! (base ++ [segment])%list = Some Directory ->
              mkdirSync_recursive (base ++ [segment])%list rest fs0 = Ok fs' ->
              fs' !! (base ++ take k (segment :: rest))%list = Some Directory).
    { intros fs0 Hdir0 Hrun0. destruct k as [|k]; [lia|]. simpl in Hk.
      simpl. destruct k as [|k].
      - rewrite take_0. apply (mkdirSync_recursive_keeps _ _ _ _ Hrun0). exact Hdir0.
      - change (segment :: take (S k) rest) with ([segment] ++ take (S k) rest)%list.
        rewrite app_assoc. apply (IH _ _ _ Hrun0). lia. }
    destruct (fs !! (base ++ [segment])%list) as [[content|]|] eqn:Hdir.
    + discriminate.
    + apply (Hhere fs); [exact Hdir|exact Hrun].
    + apply (Hhere _ (lookup_insert_eq _ _ _) Hrun).
Qed.

(** Where every directory on the way exists the walk changes nothing. *)
Lemma mkdirSync_recursive_made (segments : list string) :
  forall (base : path) (fs : gmap path entry),
    (forall k, (0 < k <= length segments)%nat ->
       fs !! (base ++ take k segments)%list = Some Directory) ->
    mkdirSync_recursive base segments fs = Ok fs.
Proof.
  induction segments as [|segment rest IH]; intros base fs Hall; [reflexivity|].
  simpl. pose proof (Hall 1%nat) as Hfirst. simpl in Hfirst. rewrite take_0 in Hfirst.
  unfold path in *. rewrite Hfirst by lia.
  apply IH. intros k Hk.
  rewrite <- app_assoc. apply (Hall (S k)). simpl. lia.
Qed.

(** The walk ends well exactly when no file is in its way. *)
Lemma mkdirSync_recursive_meets_no_file (segments : list string)
    (base : path) (fs fs' : gmap path entry) :
  mkdirSync_recursive base segments fs = Ok fs' ->
  forall k content, (0 < k <= length segments)%nat ->
    fs !! (base ++ take k segments)%list <> Some (File content).
Proof.
  intros Hrun k content Hk Hfile.
  pose proof (mkdirSync_recursive_keeps _ _ _ _ Hrun _ _ Hfile) as Hkept.
  pose proof (mkdirSync_recursive_makes _ _ _ _ Hrun k Hk) as Hmade.
  unfold path in *. congruence.
Qed.

Lemma mkdirSync_recursive_succeeds (segments : list string) :
  forall (base : path) (fs : gmap path entry),
    (forall k content, (0 < k <= length segments)%nat ->
       fs !! (base ++ take k segments)%list <> Some (File content)) ->
    exists fs', mkdirSync_recursive base segments fs = Ok fs'.
Proof.
  induction segments as [|segment rest IH]; intros base fs Hfree; [now exists fs|].
  simpl.
  assert (Hrest : forall fs0 : gmap path entry,
            (forall q e, fs0 !! q = Some e -> fs !! q = Some e \/ e = Directory) ->
            exists fs', mkdirSync_recursive (base ++ [segment])%list rest fs0 = Ok fs').
  { intros fs0 Hsub. apply IH. intros k content Hk Hfile.
    rewrite <- app_assoc in Hfile.
    destruct (Hsub _ _ Hfile) as [Hold|Hdir]; [|discriminate].
    apply (Hfree (S k) content); [simpl; lia|exact Hold]. }
  destruct (fs !! (base ++ [segment])%list) as [[content|]|] eqn:Hdir.
  - exfalso. apply (Hfree 1%nat content); [simpl; lia|].
    simpl. rewrite take_0. exact Hdir.
  - apply Hrest. auto.
  - apply Hrest. intros q e Hq.
    destruct (decide ((base ++ [segment])%list = q)) as [<-|Hne].
    + rewrite lookup_insert_eq in Hq. right. congruence.
    + rewrite lookup_insert_ne in Hq by exact Hne. now left.
Qed.

Section Script.
Variable show : path -> string.
Variable appRoot : path.

Lemma source_is_not_target : backendSource appRoot <> backendTarget appRoot.
Proof.
  unfold backendSource, backendTarget, runtimeDir, path_join.
  rewrite <- app_assoc. intros Heq.
  apply app_inj_2 in Heq; [|reflexivity].
  destruct Heq as [_ Heq]. discriminate.
Qed.

Lemma target_directory : removelast (backendTarget appRoot) = runtimeDir appRoot.
Proof. apply removelast_last. Qed.

Lemma runtimeDir_take :
  take (length (runtimeDir appRoot)) (runtimeDir appRoot) = runtimeDir appRoot.
Proof. apply firstn_all. Qed.

Lemma target_off_the_way (q : path) :
  q `prefix_of` runtimeDir appRoot -> q <> backendTarget appRoot.
Proof.
  intros Hpre ->. apply prefix_length in Hpre.
  unfold backendTarget, path_join in Hpre. rewrite length_app in Hpre. simpl in Hpre. lia.
Qed.

Lemma isDirectory_true (fs : gmap path entry) (p : path) :
  fs !! p = Some Directory -> isDirectory fs p = true.
Proof. intros Hp. unfold isDirectory. destruct p; [reflexivity|]. now rewrite Hp. Qed.

Lemma isDirectory_file (fs : gmap path entry) (p : path) (content : string) :
  fs !! p = Some (File content) -> p <> [] -> isDirectory fs p = false.
Proof. intros Hp Hne. unfold isDirectory. destruct p; [congruence|]. now rewrite Hp. Qed.

Lemma isDirectory_other (fs : gmap path entry) (p : path) :
  p <> [] -> fs !! p <> Some Directory -> isDirectory fs p = false.
Proof.
  intros Hne Hp. unfold isDirectory. destruct p as [|segment rest]; [congruence|].
  unfold path in *.
  destruct (fs !! (segment :: rest)) as [[content|]|]; [reflexivity| |reflexivity].
  now destruct Hp.
Qed.

Lemma runtimeDir_made (fs fs' : gmap path entry) :
  mkdirSync (runtimeDir appRoot) fs = Ok fs' ->
  fs' !! runtimeDir appRoot = Some Directory.
Proof.
  intros Hmk.
  pose proof (mkdirSync_recursive_makes _ _ _ _ Hmk (length (runtimeDir appRoot))) as Hdir.
  rewrite runtimeDir_take in Hdir. apply Hdir.
  unfold runtimeDir, path_join. rewrite length_app. simpl. lia.
Qed.

(** The three steps of a run that ends well. *)
Lemma stage_steps (fs fs' : gmap path entry) (log : list string) :
  stage show appRoot fs = Ok (fs', log) ->
  exists (content : string) (fs1 : gmap path entry),
    fs1 !! backendSource appRoot = Some (File content) /\
    mkdirSync (runtimeDir appRoot) fs = Ok fs1 /\
    isDirectory fs1 (backendTarget appRoot) = false /\
    fs' = <[backendTarget appRoot := File content]> fs1 /\
    log = [ "[stage] backend copied to " ++ show (backendTarget appRoot) ].
Proof.
  unfold stage. destruct (existsSync fs (backendSource appRoot)); [|discriminate].
  simpl. destruct (mkdirSync (runtimeDir appRoot) fs) as [fs1|e] eqn:Hmk; [|discriminate].
  simpl. unfold copyFileSync.
  destruct (fs1 !! backendSource appRoot) as [[content|]|] eqn:Hsrc; try discriminate.
  destruct (isDirectory fs1 (backendTarget appRoot)) eqn:Htarget; [discriminate|].
  destruct (isDirectory fs1 (removelast (backendTarget appRoot))); [|discriminate].
  simpl. intros [= <- <-]. exists content, fs1. auto.
Qed.

(** X13. When the staging script ends without throwing, the file at the
    target holds what the built binary holds, the binary is still where
    it was, the runtime directory is a directory, every other entry of
    the file system is what it was, and what the script added besides
    the target are directories on the way to the runtime directory. *)
Theorem stage_copies_the_binary (fs fs' : gmap path entry) (log : list string) :
  stage show appRoot fs = Ok (fs', log) ->
  exists content : string,
    fs !! backendSource appRoot = Some (File content) /\
    fs' !! backendSource appRoot = Some (File content) /\
    fs' !! backendTarget appRoot = Some (File content) /\
    fs' !! runtimeDir appRoot = Some Directory /\
    (forall q e, q <> backendTarget appRoot -> fs !! q = Some e -> fs' !! q = Some e) /\
    (forall q, q <> backendTarget appRoot -> fs !! q = None ->
       fs' !! q = None \/ (fs' !! q = Some Directory /\ q `prefix_of` runtimeDir appRoot)).
Proof.
  intros Hrun.
  assert (Hexists : existsSync fs (backendSource appRoot) = true).
  { unfold stage in Hrun.
    destruct (existsSync fs (backendSource appRoot)); [reflexivity|discriminate]. }
  destruct (stage_steps _ _ _ Hrun) as (content & fs1 & Hsrc & Hmk & _ & -> & _).
  pose proof (mkdirSync_recursive_keeps _ _ _ _ Hmk) as Hkeeps.
  pose proof (mkdirSync_recursive_adds _ _ _ _ Hmk) as Hadds.
  exists content.
  assert (Hwas : fs !! backendSource appRoot = Some (File content)).
  { unfold existsSync in Hexists. apply bool_decide_eq_true in Hexists.
    destruct Hexists as [e He]. pose proof (Hkeeps _ _ He) as He1.
    unfold path in *. congruence. }
  split; [exact Hwas|].
  split; [rewrite lookup_insert_ne; [exact Hsrc|]; intros Heq; symmetry in Heq;
          exact (source_is_not_target Heq)|].
  split; [apply lookup_insert_eq|].
  split; [rewrite lookup_insert_ne;
          [exact (runtimeDir_made _ _ Hmk)|];
          intros Heq; symmetry in Heq; revert Heq; apply target_off_the_way; reflexivity|].
  split.
  - intros q e Hne Hq. rewrite lookup_insert_ne by congruence. exact (Hkeeps _ _ Hq).
  - intros q Hne Hq. rewrite lookup_insert_ne by congruence. exact (Hadds _ Hq).
Qed.

(** X14. Staging is idempotent: a run of the script on the file system
    that a run which ended well has left ends well too, leaves it as it
    is and logs the same line. *)
Theorem stage_again_changes_nothing (fs fs' : gmap path entry) (log : list string) :
  stage show appRoot fs = Ok (fs', log) ->
  stage show appRoot fs' = Ok (fs', log).
Proof.
  intros Hrun.
  destruct (stage_steps _ _ _ Hrun) as (content & fs1 & Hsrc & Hmk & Hnodir & -> & ->).
  set (fs2 := <[backendTarget appRoot := File content]> fs1).
  assert (Hsrc2 : fs2 !! backendSource appRoot = Some (File content)).
  { unfold fs2. rewrite lookup_insert_ne; [exact Hsrc|].
    intros Heq; symmetry in Heq; exact (source_is_not_target Heq). }
  assert (Hmk2 : mkdirSync (runtimeDir appRoot) fs2 = Ok fs2).
  { apply mkdirSync_recursive_made. intros k Hk. unfold fs2.
    rewrite lookup_insert_ne.
    - exact (mkdirSync_recursive_makes _ _ _ _ Hmk k Hk).
    - intros Heq. symmetry in Heq. revert Heq. apply target_off_the_way.
      apply prefix_take. }
  assert (Htarget : fs2 !! backendTarget appRoot = Some (File content))
    by apply lookup_insert_eq.
  unfold stage, existsSync.
  rewrite bool_decide_true by (rewrite Hsrc2; eauto).
  simpl. rewrite Hmk2. simpl. unfold copyFileSync. rewrite Hsrc2.
  rewrite (isDirectory_file _ _ _ Htarget)
    by (unfold backendTarget, path_join; intros Heq; symmetry in Heq;
        exact (app_cons_not_nil _ _ _ Heq)).
  rewrite target_directory.
  rewrite isDirectory_true.
  - simpl. rewrite insert_id by exact Htarget. reflexivity.
  - unfold fs2. rewrite lookup_insert_ne; [exact (runtimeDir_made _ _ Hmk)|].
    intros Heq; symmetry in Heq; revert Heq; apply target_off_the_way; reflexivity.
Qed.

(** X15. The staging script ends well exactly when the built binary is
    a file, no file is in the way of the runtime directory and the target
    is not a directory; its test that the binary exists is not enough
    where a directory has the binary's name. *)
Theorem stage_succeeds_iff (fs : gmap path entry) :
  (exists out, stage show appRoot fs = Ok out) <->
  (exists content, fs !! backendSource appRoot = Some (File content)) /\
  (forall k content, (0 < k <= length (runtimeDir appRoot))%nat ->
     fs !! take k (runtimeDir appRoot) <> Some (File content)) /\
  fs !! backendTarget appRoot <> Some Directory.
Proof.
  split.
  - intros [[fs' log] Hrun].
    assert (Hexists : existsSync fs (backendSource appRoot) = true).
    { unfold stage in Hrun.
      destruct (existsSync fs (backendSource appRoot)); [reflexivity|discriminate]. }
    destruct (stage_steps _ _ _ Hrun) as (content & fs1 & Hsrc & Hmk & Hnodir & _ & _).
    pose proof (mkdirSync_recursive_keeps _ _ _ _ Hmk) as Hkeeps.
    split; [|split].
    + exists content. unfold existsSync in Hexists. apply bool_decide_eq_true in Hexists.
      destruct Hexists as [e He]. pose proof (Hkeeps _ _ He) as He1.
      unfold path in *. congruence.
    + intros k c Hk. exact (mkdirSync_recursive_meets_no_file _ _ _ _ Hmk k c Hk).
    + intros Hdir. apply Hkeeps in Hdir. apply isDirectory_true in Hdir. congruence.
  - intros ([content Hsrc] & Hfree & Htarget).
    destruct (mkdirSync_recursive_succeeds (runtimeDir appRoot) [] fs Hfree) as [fs1 Hmk].
    pose proof (mkdirSync_recursive_keeps _ _ _ _ Hmk) as Hkeeps.
    pose proof (mkdirSync_recursive_adds _ _ _ _ Hmk) as Hadds.
    assert (Hnodir : isDirectory fs1 (backendTarget appRoot) = false).
    { apply isDirectory_other.
      - unfold backendTarget, path_join. intros Heq. symmetry in Heq.
        exact (app_cons_not_nil _ _ _ Heq).
      - destruct (fs !! backendTarget appRoot) as [[c|]|] eqn:Hwas.
        + rewrite (Hkeeps _ _ Hwas). discriminate.
        + congruence.
        + destruct (Hadds _ Hwas) as [Hnone|[_ Hpre]].
          * unfold path in *. rewrite Hnone. discriminate.
          * destruct (target_off_the_way _ Hpre eq_refl). }
    eexists. unfold stage, existsSync.
    rewrite bool_decide_true by (rewrite Hsrc; eauto).
    simpl. unfold mkdirSync. rewrite Hmk. simpl.
    unfold copyFileSync. rewrite (Hkeeps _ _ Hsrc), Hnodir, target_directory.
    rewrite (isDirectory_true _ _ (runtimeDir_made _ _ Hmk)). reflexivity.
Qed.

End Script.

Lemma stage_copies_the_binary_witness :
  exists (fs' : gmap path entry) (log : list string),
    stage show_windows sample_appRoot sample_checkout = Ok (fs', log) /\
    fs' !! [ "C:"; "winpods"; "apps"; "desktop-ui"; ".runtime"; "backend"; "desktop.exe" ]
      = Some (File "MZ") /\
    fs' !! [ "C:"; "winpods"; "apps"; "desktop-ui"; ".runtime"; "backend" ]
      = Some Directory.
Proof.
  do 2 eexists. split; [reflexivity|].
  destruct (stage_copies_the_binary show_windows sample_appRoot sample_checkout _ _ eq_refl)
    as (content & Hwas & _ & Htarget & Hdir & _).
  split; [|exact Hdir].
  injection Hwas as <-. exact Htarget.
Defined.

Lemma stage_again_changes_nothing_witness :
  exists (fs' : gmap path entry) (log : list string),
    stage show_windows sample_appRoot sample_checkout = Ok (fs', log) /\
    stage show_windows sample_appRoot fs' = Ok (fs', log) /\
    log = [ "[stage] backend copied to C:\winpods\apps\desktop-ui\.runtime\backend\desktop.exe" ].
Proof.
  do 2 eexists. split; [reflexivity|]. split; [|reflexivity].
  exact (stage_again_changes_nothing show_windows sample_appRoot sample_checkout _ _ eq_refl).
Defined.

End StageSpec.
